(** * Shallow embedding of databases/backends/mysql.py

    The session/transaction layer of the MySQL backend: the [Record] row
    wrapper, the reference-counted connection lease of [MySQLSession], the
    query operations built on it, and the nested BEGIN/SAVEPOINT state
    machine of [MySQLTransaction].

    The pool, the driver (connections and cursors) and the SQLAlchemy
    compiler are external collaborators.  Every call to one of them is an
    [Event] appended to a log, and may raise: an oracle list of booleans in
    the state says, call by call, whether the collaborator raises ([true])
    or returns ([false], also when the list is exhausted).  Result sets
    returned by [cursor.execute] and the values returned by [uuid.uuid4()]
    are likewise taken from lists in the state.  Python exceptions do not
    undo assignments, so the monad below returns the state also on error. *)

From Stdlib Require Import ZArith Lia String Ascii.
From stdpp Require Import base list gmap strings.

Open Scope Z_scope.

(** ** Values, columns, queries *)

(** Raw driver values. *)
Inductive Val :=
| VNone
| VInt (z : Z)
| VStr (s : string).

Instance Val_eq_dec : EqDecision Val.
Proof. solve_decision. Defined.

(** A row as returned by the cursor: a Python tuple. *)
Definition Row := list Val.

(** A result-column descriptor: [col[0]] is its key and [col[-1].python_type]
    its conversion function, which may raise (ValueError/TypeError). *)
Record Column := mkColumn {
  col_name : string;
  python_type : Val -> option Val
}.

(** An abstract query: the text and parameters the compiler produces for it,
    and the result columns ([compiled._result_columns]). *)
Record Query := mkQuery {
  q_text : string;
  q_args : list Val;
  q_cols : list Column
}.

(** [query.values(item)]: the same statement bound to another value set. *)
Definition query_values (q : Query) (item : list Val) : Query :=
  mkQuery (q_text q) item (q_cols q).

(** ** Exceptions *)

(** [DriverError] is any exception raised by the pool, the driver or the
    compiler; the others are raised by the code of this file itself. *)
Inductive Exc :=
| DriverError
| AttributeError
| KeyError
| TypeError
| IndexError
| ConversionError.

(** ** Record *)

(** [class Record]: the raw row (the code also accepts [None], as passed by
    [fetchone] on an empty result) and the result columns. *)
Record DbRecord := mkRecord {
  _row : option Row;
  _result_columns : list Column
}.

(** [self._column_map = {col[0]: (idx, col) for idx, col in
    enumerate(self._result_columns)}]: a dict built by successive insertion,
    so a later column with the same key overwrites an earlier one. *)
Definition _column_map (cols : list Column) : gmap string (nat * Column) :=
  foldl (fun (m : gmap string (nat * Column)) '(idx, col) =>
           <[col_name col := (idx, col)]> m)
        ∅ (imap pair cols).

(** [Record.__getitem__]. *)
Definition getitem (r : DbRecord) (key : string) : Exc + Val :=
  match _column_map (_result_columns r) !! key with
  | None => inl KeyError
  | Some (idx, col) =>
      match _row r with
      | None => inl TypeError          (* None[idx] *)
      | Some row =>
          match row !! idx with
          | None => inl IndexError
          | Some raw =>
              match python_type col raw with
              | Some v => inr v
              | None => inl ConversionError
              end
          end
      end
  end.

(** ** Events: the calls made to the collaborators *)

Inductive Event :=
| EvLeaseAcquire                          (* entry of acquire_connection *)
| EvLeaseRelease                          (* entry of release_connection *)
| EvPoolAcquire (c : nat)                 (* pool.acquire(), returning c *)
| EvPoolRelease (c : option nat)          (* pool.release(self.conn) *)
| EvCompile (sql : string) (args : list Val)
| EvCursor (c : nat) (k : nat)            (* conn c .cursor(), returning k *)
| EvExec (k : nat) (sql : string) (args : list Val)
| EvFetchAll (k : nat)
| EvFetchOne (k : nat)
| EvClose (k : nat)
| EvBegin (c : nat)
| EvCommit (c : nat)
| EvRollback (c : nat).

Instance Event_eq_dec : EqDecision Event.
Proof. solve_decision. Defined.

(** ** State *)

(** The attributes of [MySQLSession] used by the claims. *)
Record Session := mkSession {
  conn : option nat;
  connection_holders : Z;
  has_root_transaction : bool
}.

(** The attributes of [MySQLTransaction]; [t_conn] and [savepoint_name] are
    the attributes [self.conn] and [self.savepoint_name], absent ([None])
    until [start] assigns them. *)
Record Transaction := mkTransaction {
  is_root : bool;
  t_conn : option nat;
  savepoint_name : option string
}.

(** [MySQLTransaction(session)]. *)
Definition new_transaction : Transaction := mkTransaction false None None.

Record St := mkSt {
  sess : Session;
  txs : list Transaction;        (* the transactions of the session, by id *)
  log : list Event;
  fails : list bool;             (* does the next collaborator call raise? *)
  results : list (list Row);     (* result sets of successive executes *)
  uuids : list Z;                (* successive uuid.uuid4() values *)
  next_id : nat;                 (* fresh connection and cursor ids *)
  last_rows : list Row           (* result set of the last execute *)
}.

Definition set_sess (s : St) (x : Session) : St :=
  match s with mkSt a b c d e f g h => mkSt x b c d e f g h end.
Definition set_txs (s : St) (x : list Transaction) : St :=
  match s with mkSt a b c d e f g h => mkSt a x c d e f g h end.
Definition set_log (s : St) (x : list Event) : St :=
  match s with mkSt a b c d e f g h => mkSt a b x d e f g h end.
Definition set_fails (s : St) (x : list bool) : St :=
  match s with mkSt a b c d e f g h => mkSt a b c x e f g h end.
Definition set_results (s : St) (x : list (list Row)) : St :=
  match s with mkSt a b c d e f g h => mkSt a b c d x f g h end.
Definition set_uuids (s : St) (x : list Z) : St :=
  match s with mkSt a b c d e f g h => mkSt a b c d e x g h end.
Definition set_next_id (s : St) (x : nat) : St :=
  match s with mkSt a b c d e f g h => mkSt a b c d e f x h end.
Definition set_last_rows (s : St) (x : list Row) : St :=
  match s with mkSt a b c d e f g h => mkSt a b c d e f g x end.

(** A freshly constructed session ([rollback_isolation=False]) in a given
    environment. *)
Definition new_session (fl : list bool) (rs : list (list Row)) (us : list Z) : St :=
  mkSt (mkSession None 0 false) [] [] fl rs us 0 [].

(** ** The exception-and-state monad *)

Definition M (A : Type) : Type := St -> (Exc + A) * St.

Definition ret {A} (a : A) : M A := fun s => (inr a, s).
Definition raise {A} (e : Exc) : M A := fun s => (inl e, s).
Definition bind {A B} (m : M A) (f : A -> M B) : M B :=
  fun s => match m s with
           | (inl e, s') => (inl e, s')
           | (inr a, s') => f a s'
           end.
Definition get : M St := fun s => (inr s, s).
Definition modify (f : St -> St) : M unit := fun s => (inr tt, f s).

Notation "'let*' x ':=' m 'in' k" := (bind m (fun x => k))
  (at level 200, x name, m at level 100, k at level 200).
Notation "'let*' ' p ':=' m 'in' k" := (bind m (fun x => match x with p => k end))
  (at level 200, p pattern, m at level 100, k at level 200).
Notation "m '>>' k" := (bind m (fun _ => k))
  (at level 100, k at level 200, right associativity).


(** [try: m finally: f]: [f] runs in every case; an exception it raises
    replaces the one of [m]. *)
Definition try_finally {A} (m : M A) (f : M unit) : M A :=
  fun s => match m s with
           | (r, s1) =>
               match f s1 with
               | (inl e, s2) => (inl e, s2)
               | (inr _, s2) => (r, s2)
               end
           end.

(** Record an internal event (no collaborator involved). *)
Definition note (e : Event) : M unit :=
  fun s => match s with
           | mkSt x t lg f r u n l => (inr tt, mkSt x t (lg ++ [e]) f r u n l)
           end.

(** A call to a collaborator: it is logged, then raises or returns as the
    oracle says. *)
Definition external (e : Event) : M unit :=
  fun s =>
    match s with
    | mkSt x t lg f r u n l =>
        match f with
        | true :: rest => (inl DriverError, mkSt x t (lg ++ [e]) rest r u n l)
        | false :: rest => (inr tt, mkSt x t (lg ++ [e]) rest r u n l)
        | [] => (inr tt, mkSt x t (lg ++ [e]) [] r u n l)
        end
    end.

Definition fresh_id : M nat :=
  fun s => match s with
           | mkSt x t lg f r u n l => (inr n, mkSt x t lg f r u (S n) l)
           end.

Definition modify_sess (g : Session -> Session) : M unit :=
  fun s => match s with
           | mkSt x t lg f r u n l => (inr tt, mkSt (g x) t lg f r u n l)
           end.

(** ** Collaborators *)

(** [await self.pool.acquire()] *)
Definition pool_acquire : M nat :=
  let* c := fresh_id in external (EvPoolAcquire c) >> ret c.

(** [await self.pool.release(self.conn)] *)
Definition pool_release (c : option nat) : M unit := external (EvPoolRelease c).

(** [await conn.cursor()]; [None.cursor()] or a missing [self.conn] raise
    AttributeError. *)
Definition conn_cursor (c : option nat) : M nat :=
  match c with
  | None => raise AttributeError
  | Some c => let* k := fresh_id in external (EvCursor c k) >> ret k
  end.

(** [await cursor.execute(sql, args)]: the driver runs the statement and
    keeps its result set for the fetches. *)
Definition cursor_execute (k : nat) (sql : string) (args : list Val) : M unit :=
  external (EvExec k sql args) >>
  (fun s => match s with
            | mkSt x t lg f [] u n l => (inr tt, mkSt x t lg f [] u n [])
            | mkSt x t lg f (r :: rest) u n l => (inr tt, mkSt x t lg f rest u n r)
            end).

Definition cursor_fetchall (k : nat) : M (list Row) :=
  external (EvFetchAll k) >> let* s := get in ret (last_rows s).

(** [await cursor.fetchone()]: the first row, or [None]. *)
Definition cursor_fetchone (k : nat) : M (option Row) :=
  external (EvFetchOne k) >> let* s := get in ret (head (last_rows s)).

Definition cursor_close (k : nat) : M unit := external (EvClose k).

Definition conn_begin (c : option nat) : M unit :=
  match c with None => raise AttributeError | Some c => external (EvBegin c) end.
Definition conn_commit (c : option nat) : M unit :=
  match c with None => raise AttributeError | Some c => external (EvCommit c) end.
Definition conn_rollback (c : option nat) : M unit :=
  match c with None => raise AttributeError | Some c => external (EvRollback c) end.

(** [MySQLSession._compile]: returns text, parameters and result columns. *)
Definition _compile (q : Query) : M (string * list Val * list Column) :=
  external (EvCompile (q_text q) (q_args q)) >>
  ret (q_text q, q_args q, q_cols q).

(** ** MySQLSession: connection leasing *)

(** [acquire_connection]: the count is incremented before the pool call. *)
Definition acquire_connection : M (option nat) :=
  note EvLeaseAcquire >>
  modify_sess (fun x => match x with mkSession c h r => mkSession c (h + 1) r end) >>
  let* s := get in
  (match conn (sess s) with
   | None => let* c := pool_acquire in
             modify_sess (fun x => match x with mkSession _ h r => mkSession (Some c) h r end)
   | Some _ => ret tt
   end) >>
  let* s' := get in ret (conn (sess s')).

(** [release_connection]: decrement, and give the connection back to the
    pool when the count reaches zero. *)
Definition release_connection : M unit :=
  note EvLeaseRelease >>
  modify_sess (fun x => match x with mkSession c h r => mkSession c (h - 1) r end) >>
  let* s := get in
  if Z.eqb (connection_holders (sess s)) 0 then
    pool_release (conn (sess s)) >>
    modify_sess (fun x => match x with mkSession _ h r => mkSession None h r end)
  else ret tt.

(** ** MySQLSession: query operations *)

(** [fetchall]: the cursor is opened before the [try]. *)
Definition fetchall (q : Query) : M (list DbRecord) :=
  let* '(query, args, result_columns) := _compile q in
  let* c := acquire_connection in
  let* cursor := conn_cursor c in
  try_finally
    (cursor_execute cursor query args >>
     let* rows := cursor_fetchall cursor in
     ret (map (fun row => mkRecord (Some row) result_columns) rows))
    (cursor_close cursor >> release_connection).

(** [fetchone]: the row, [None] included, is wrapped in a [Record]. *)
Definition fetchone (q : Query) : M DbRecord :=
  let* '(query, args, result_columns) := _compile q in
  let* c := acquire_connection in
  let* cursor := conn_cursor c in
  try_finally
    (cursor_execute cursor query args >>
     let* row := cursor_fetchone cursor in
     ret (mkRecord row result_columns))
    (cursor_close cursor >> release_connection).

Definition execute (q : Query) : M unit :=
  let* '(query, args, result_columns) := _compile q in
  let* c := acquire_connection in
  let* cursor := conn_cursor c in
  try_finally
    (cursor_execute cursor query args)
    (cursor_close cursor >> release_connection).

(** The [for item in values] loop of [executemany]. *)
Fixpoint executemany_loop (q : Query) (cursor : nat) (values : list (list Val))
  : M unit :=
  match values with
  | [] => ret tt
  | item :: rest =>
      let single_query := query_values q item in
      let* '(single_sql, args, result_columns) := _compile single_query in
      cursor_execute cursor single_sql args >>
      executemany_loop q cursor rest
  end.

Definition executemany (q : Query) (values : list (list Val)) : M unit :=
  let* c := acquire_connection in
  let* cursor := conn_cursor c in
  try_finally
    (executemany_loop q cursor values)
    (cursor_close cursor >> release_connection).

(** ** Savepoint names *)

(** Lower-case hexadecimal digit of a nibble, as in [str(uuid.UUID)]. *)
Definition hex_digit (d : Z) : ascii :=
  ascii_of_nat (Z.to_nat (if d <? 10 then 48 + d else 87 + d)).

(** The [n] nibbles of [u], most significant first. *)
Fixpoint nibbles (n : nat) (u : Z) : list Z :=
  match n with
  | O => []
  | S n' => nibbles n' (u / 16) ++ [u mod 16]
  end.

(** [str(uuid)]: 32 hexadecimal digits grouped 8-4-4-4-12 by hyphens. *)
Definition uuid_str (u : Z) : list ascii :=
  let h := map hex_digit (nibbles 32 u) in
  take 8 h ++ ["-"%char] ++ take 4 (drop 8 h) ++ ["-"%char] ++
  take 4 (drop 12 h) ++ ["-"%char] ++ take 4 (drop 16 h) ++ ["-"%char] ++
  drop 20 h.

(** [s.replace("-", "_")] on single characters. *)
Definition replace_hyphen (l : list ascii) : list ascii :=
  map (fun ch => if Ascii.eqb ch "-"%char then "_"%char else ch) l.

(** [f"STARLETTE_SAVEPOINT_{id}"] with
    [id = str(uuid.uuid4()).replace("-", "_")]. *)
Definition savepoint_of_uuid (u : Z) : string :=
  ("STARLETTE_SAVEPOINT_" ++ string_of_list_ascii (replace_hyphen (uuid_str u)))%string.

(** [uuid.uuid4()]: the next value supplied by the environment. *)
Definition uuid4 : M Z :=
  fun s => match uuids s with
           | [] => (inr 0, s)
           | u :: rest => (inr u, set_uuids s rest)
           end.

(** ** MySQLTransaction *)

(** [session.transaction()]: a new transaction object, named by its index. *)
Definition transaction : M nat :=
  fun s => (inr (length (txs s)), set_txs s (txs s ++ [new_transaction])).

Definition get_tx (i : nat) : M Transaction :=
  fun s => match txs s !! i with
           | Some t => (inr t, s)
           | None => (inl AttributeError, s)
           end.

(** Assignment to an attribute of the transaction object [i]. *)
Definition modify_tx (i : nat) (g : Transaction -> Transaction) : M unit :=
  fun s => match s with
           | mkSt x ts lg f r u n l =>
               (inr tt, mkSt x (match ts !! i with
                                | Some t => <[i := g t]> ts
                                | None => ts
                                end) lg f r u n l)
           end.

Definition set_flag (b : bool) : M unit :=
  modify_sess (fun x => match x with mkSession c h _ => mkSession c h b end).

(** [cursor = await self.conn.cursor(); try: await cursor.execute(sql)
    finally: await cursor.close()]; the statement text is computed inside
    the [try], as an f-string reading [self.savepoint_name]. *)
Definition exec_on_fresh_cursor (c : option nat) (sql : M string) : M unit :=
  let* cursor := conn_cursor c in
  try_finally (let* q := sql in cursor_execute cursor q []) (cursor_close cursor).

Definition read_savepoint (i : nat) (prefix : string) : M string :=
  let* t := get_tx i in
  match savepoint_name t with
  | None => raise AttributeError
  | Some n => ret (prefix ++ n)%string
  end.

(** [MySQLTransaction.start]. *)
Definition start (i : nat) : M unit :=
  let* s := get in
  (if Bool.eqb (has_root_transaction (sess s)) false then
     set_flag true >> modify_tx i (fun t => mkTransaction true (t_conn t) (savepoint_name t))
   else ret tt) >>
  let* c := acquire_connection in
  modify_tx i (fun t => mkTransaction (is_root t) c (savepoint_name t)) >>
  let* t := get_tx i in
  if is_root t then conn_begin (t_conn t)
  else
    let* u := uuid4 in
    modify_tx i (fun t => mkTransaction (is_root t) (t_conn t) (Some (savepoint_of_uuid u))) >>
    exec_on_fresh_cursor (t_conn t) (read_savepoint i "SAVEPOINT ").

(** [MySQLTransaction.commit]. *)
Definition commit (i : nat) : M unit :=
  let* t := get_tx i in
  (if is_root t then conn_commit (t_conn t) >> set_flag false
   else exec_on_fresh_cursor (t_conn t) (read_savepoint i "RELEASE SAVEPOINT ")) >>
  release_connection.

(** [MySQLTransaction.rollback]. *)
Definition rollback (i : nat) : M unit :=
  let* t := get_tx i in
  (if is_root t then conn_rollback (t_conn t) >> set_flag false
   else exec_on_fresh_cursor (t_conn t) (read_savepoint i "ROLLBACK TO SAVEPOINT ")) >>
  release_connection.

(** ** Sequences of calls *)

(** Direct calls of the two leasing methods; a caller may catch an exception
    and go on, so a run continues after a raising call. *)
Inductive LeaseOp := LAcquire | LRelease.

Definition lease_op (o : LeaseOp) : M unit :=
  match o with
  | LAcquire => acquire_connection >> ret tt
  | LRelease => release_connection
  end.

Fixpoint run_lease (ops : list LeaseOp) (s : St) : St :=
  match ops with
  | [] => s
  | o :: rest => run_lease rest (snd (lease_op o s))
  end.

(** Every release is preceded by a matching acquire, starting from [h]
    outstanding acquires. *)
Fixpoint paired (h : Z) (ops : list LeaseOp) : bool :=
  match ops with
  | [] => true
  | LAcquire :: rest => paired (h + 1) rest
  | LRelease :: rest => (0 <? h) && paired (h - 1) rest
  end.

Fixpoint lease_balance (ops : list LeaseOp) : Z :=
  match ops with
  | [] => 0
  | LAcquire :: rest => lease_balance rest + 1
  | LRelease :: rest => lease_balance rest - 1
  end.

(** A balanced sequence of acquire/release calls. *)
Definition balanced (ops : list LeaseOp) : bool :=
  paired 0 ops && Z.eqb (lease_balance ops) 0.

(** The session invariant of the data model. *)
Definition lease_inv (x : Session) : Prop :=
  0 <= connection_holders x /\ (conn x <> None <-> 0 < connection_holders x).

(** Calls on transaction objects: [session.transaction()], [start()],
    [commit()], [rollback()] on the transaction with the given index. *)
Inductive Cmd := CNew | CStart (i : nat) | CCommit (i : nat) | CRollback (i : nat).

Definition run_cmd (c : Cmd) : M unit :=
  match c with
  | CNew => transaction >> ret tt
  | CStart i => start i
  | CCommit i => commit i
  | CRollback i => rollback i
  end.

(** Life cycle of a transaction object as seen by its caller (not stored by
    the code): not started, started, terminated. *)
Inductive Phase := Unstarted | Active | Terminated.

Instance Phase_eq_dec : EqDecision Phase.
Proof. solve_decision. Defined.

(** The program state, the phase of every transaction object, and the
    transaction whose [start] last found [has_root_transaction] false, that
    is, the one that set the flag. *)
Record World := mkWorld {
  w_st : St;
  w_phase : list Phase;
  w_setter : option nat
}.

(** The caller contract of the spec: [start] once on an unstarted
    transaction, [commit]/[rollback] once on a started one. *)
Definition allowed (ph : list Phase) (c : Cmd) : bool :=
  match c with
  | CNew => true
  | CStart i => bool_decide (ph !! i = Some Unstarted)
  | CCommit i | CRollback i => bool_decide (ph !! i = Some Active)
  end.

Definition wstep (w : World) (c : Cmd) : World :=
  let s' := snd (run_cmd c (w_st w)) in
  match c with
  | CNew => mkWorld s' (w_phase w ++ [Unstarted]) (w_setter w)
  | CStart i =>
      mkWorld s' (<[i := Active]> (w_phase w))
        (if has_root_transaction (sess (w_st w)) then w_setter w else Some i)
  | CCommit i | CRollback i =>
      mkWorld s' (<[i := Terminated]> (w_phase w)) (w_setter w)
  end.

Fixpoint contract_ok (w : World) (cs : list Cmd) : bool :=
  match cs with
  | [] => true
  | c :: rest => allowed (w_phase w) c && contract_ok (wstep w c) rest
  end.

Fixpoint run_world (w : World) (cs : list Cmd) : World :=
  match cs with
  | [] => w
  | c :: rest => run_world (wstep w c) rest
  end.

(** A started, not yet terminated root transaction. *)
Definition open_root (w : World) (i : nat) : Prop :=
  w_phase w !! i = Some Active /\
  exists t, txs (w_st w) !! i = Some t /\ is_root t = true.

Definition init_world (fl : list bool) (rs : list (list Row)) (us : list Z) : World :=
  mkWorld (new_session fl rs us) [] None.

(** One insertion of the dict comprehension of [_column_map]. *)
Definition ins_col (m : gmap string (nat * Column)) (p : nat * Column)
  : gmap string (nat * Column) :=
  let '(idx, col) := p in <[col_name col := (idx, col)]> m.

(** The example of the spec: row [(1, "alice")], columns [id] and [name]. *)
Definition py_int (v : Val) : option Val :=
  match v with VInt z => Some (VInt z) | _ => None end.
Definition py_str (v : Val) : option Val :=
  match v with VStr s => Some (VStr s) | _ => None end.

(** Number of occurrences of an event in a log. *)
Definition count_ev (e : Event) (l : list Event) : nat :=
  length (List.filter (fun x => bool_decide (x = e)) l).

(** Characters allowed in an undelimited SQL identifier. *)
Definition ident_char (ch : ascii) : bool :=
  let n := nat_of_ascii ch in
  ((48 <=? n) && (n <=? 57))%nat || ((65 <=? n) && (n <=? 90))%nat ||
  ((97 <=? n) && (n <=? 122))%nat || Ascii.eqb ch "_"%char.

Definition ident_ok (s : string) : bool := forallb ident_char (list_ascii_of_string s).

(** Reading a savepoint name back: drop the prefix and the separators and
    read the hexadecimal digits. *)
Definition hex_value (ch : ascii) : Z :=
  let n := Z.of_nat (nat_of_ascii ch) in if n <? 97 then n - 48 else n - 87.

Definition uuid_of_savepoint (name : string) : Z :=
  foldl (fun acc ch => acc * 16 + hex_value ch) 0
    (List.filter (fun ch => negb (Ascii.eqb ch "_"%char))
       (drop 20 (list_ascii_of_string name))).

(** A character of [str(uuid)]: a hyphen or a hexadecimal digit. *)
Definition uuid_char (ch : ascii) : Prop :=
  ch = "-"%char \/ exists d, 0 <= d < 16 /\ ch = hex_digit d.

(** The hexadecimal digits of a savepoint suffix: hyphens replaced, then
    underscores dropped. *)
Definition strip (l : list ascii) : list ascii :=
  List.filter (fun ch => negb (Ascii.eqb ch "_"%char)) (replace_hyphen l).

(** A session with one started root transaction (index 0). *)
Definition s_root : St := snd ((transaction >> start 0) (new_session [] [] [])).

(** A session with a root transaction 0 and a nested transaction 1. *)
Definition s_nested : St :=
  snd ((transaction >> start 0 >> transaction >> start 1) (new_session [] [] [7])).

(** Relations between the state before and after a computation, and the
    computations all of whose runs relate them. *)
Definition preserves {A} (R : St -> St -> Prop) (m : M A) : Prop :=
  forall s, R s (snd (m s)).

(** The same [is_root] attribute for every transaction object, and the same
    root flag. *)
Definition same_roots (s s' : St) : Prop :=
  is_root <$> txs s' = is_root <$> txs s /\
  has_root_transaction (sess s') = has_root_transaction (sess s).

(** The same transaction objects. *)
Definition same_txs (s s' : St) : Prop := txs s' = txs s.

(** What holds along runs that respect the caller contract: one phase per
    transaction object, an unstarted transaction is not root, and an open
    root transaction is the one that set the root flag, which is still set. *)
Definition world_inv (w : World) : Prop :=
  length (w_phase w) = length (txs (w_st w)) /\
  (forall i, w_phase w !! i = Some Unstarted -> (is_root <$> txs (w_st w)) !! i = Some false) /\
  (forall i, open_root w i -> has_root_transaction (sess (w_st w)) = true /\ w_setter w = Some i).

(** Lease state and "no call raises" kept by a step. *)
Definition same_lease (s s' : St) : Prop :=
  conn (sess s') = conn (sess s) /\ connection_holders (sess s') = connection_holders (sess s).

Definition keeps_no_fail (s s' : St) : Prop := fails s = [] -> fails s' = [].

(** ** MySQLSession: __init__, __aenter__, __aexit__ *)

(** [MySQLSession.__init__]: with [rollback_isolation] the session creates
    its rollback transaction; it returns [_rollback_transaction]. *)
Definition session_init (rollback_isolation : bool) : M (option nat) :=
  if rollback_isolation then let* t := transaction in ret (Some t) else ret None.

(** [MySQLSession.__aenter__]. *)
Definition aenter (rollback_transaction : option nat) : M unit :=
  match rollback_transaction with Some i => start i | None => ret tt end.

(** [MySQLSession.__aexit__]. *)
Definition aexit (rollback_transaction : option nat) : M unit :=
  match rollback_transaction with Some i => rollback i | None => ret tt end.

(** [async with session: body]: [__aenter__], then the body, then
    [__aexit__] whether or not the body raised. *)
Definition async_with {A} (rollback_transaction : option nat) (body : M A) : M A :=
  aenter rollback_transaction >> try_finally body (aexit rollback_transaction).

(** ** MySQLBackend *)

(** The fields of [DatabaseURL] that [connect] reads. *)
Record DatabaseURL := mkDatabaseURL {
  hostname : option string;
  port : option Z;
  username : option string;
  password : option string;
  database : option string
}.

(** Calls to [aiomysql] made by the backend. *)
Inductive BackendEvent :=
| EvCreatePool (host : option string) (port : Z) (user : string)
               (password : option string) (db : option string) (p : nat)
| EvPoolClose (p : nat)
| EvPoolWaitClosed (p : nat).

Inductive BackendExc := AssertionError | BackendDriverError.

(** Backend state; [b_fails] says which calls to [aiomysql] raise, and
    [getuser] is the value of [getpass.getuser()]. *)
Record Backend := mkBackend {
  database_url : DatabaseURL;
  pool : option nat;
  b_log : list BackendEvent;
  b_fails : list bool;
  b_next_id : nat;
  getuser : string
}.

(** [MySQLBackend.__init__]: [pool] is [None]. *)
Definition new_backend (url : DatabaseURL) (user : string) (fl : list bool) : Backend :=
  mkBackend url None [] fl 0 user.

(** Exception-and-state monad of the backend. *)
Definition BM (A : Type) : Type := Backend -> (BackendExc + A) * Backend.

Definition bret {A} (a : A) : BM A := fun b => (inr a, b).
Definition braise {A} (e : BackendExc) : BM A := fun b => (inl e, b).
Definition bbind {A B} (m : BM A) (f : A -> BM B) : BM B :=
  fun b => match m b with
           | (inl e, b') => (inl e, b')
           | (inr a, b') => f a b'
           end.
Definition bget : BM Backend := fun b => (inr b, b).

Definition bexternal (e : BackendEvent) : BM unit :=
  fun b => match b with
           | mkBackend u p lg f n g =>
               match f with
               | true :: rest => (inl BackendDriverError, mkBackend u p (lg ++ [e]) rest n g)
               | false :: rest => (inr tt, mkBackend u p (lg ++ [e]) rest n g)
               | [] => (inr tt, mkBackend u p (lg ++ [e]) [] n g)
               end
           end.

Definition set_pool (x : option nat) : BM unit :=
  fun b => match b with mkBackend u _ lg f n g => (inr tt, mkBackend u x lg f n g) end.

Definition bfresh_id : BM nat :=
  fun b => match b with mkBackend u p lg f n g => (inr n, mkBackend u p lg f (S n) g) end.

(** Python [x or default] on an optional integer and an optional string. *)
Definition py_or_int (x : option Z) (default : Z) : Z :=
  match x with Some z => if Z.eqb z 0 then default else z | None => default end.

Definition py_or_str (x : option string) (default : string) : string :=
  match x with Some s => if String.eqb s "" then default else s | None => default end.

(** [aiomysql.create_pool]. *)
Definition create_pool (host : option string) (port : Z) (user : string)
    (password : option string) (db : option string) : BM nat :=
  bbind bfresh_id (fun p =>
  bbind (bexternal (EvCreatePool host port user password db p)) (fun _ => bret p)).

(** [MySQLBackend.connect]. *)
Definition connect : BM unit :=
  bbind bget (fun b =>
  let db := database_url b in
  bbind (create_pool (hostname db) (py_or_int (port db) 3306)
           (py_or_str (username db) (getuser b)) (password db) (database db)) (fun p =>
  set_pool (Some p))).

(** [MySQLBackend.disconnect]. *)
Definition disconnect : BM unit :=
  bbind bget (fun b =>
  match pool b with
  | None => braise AssertionError
  | Some p =>
      bbind (bexternal (EvPoolClose p)) (fun _ =>
      bbind (bexternal (EvPoolWaitClosed p)) (fun _ =>
      set_pool None))
  end).

(** [MySQLBackend.session]: returns the pool and the flag the new
    [MySQLSession] is built from. *)
Definition session (rollback_isolation : bool) : BM (nat * bool) :=
  bbind bget (fun b =>
  match pool b with
  | None => braise AssertionError
  | Some p => bret (p, rollback_isolation)
  end).

(** * Properties *)

(** ** Concrete runs *)

(** C1 (code_bug): when the native COMMIT of a root transaction raises, or the
    ROLLBACK TO SAVEPOINT of a nested one raises, [commit]/[rollback] skip
    [release_connection]: no lease is released and the count stays up. *)
Theorem C1_termination_error_skips_release :
  fst (commit 0 (set_fails s_root [true])) = inl DriverError /\
  count_ev EvLeaseRelease (log (snd (commit 0 (set_fails s_root [true])))) = 0%nat /\
  connection_holders (sess (snd (commit 0 (set_fails s_root [true])))) = 1 /\
  fst (rollback 1 (set_fails s_nested [false; true])) = inl DriverError /\
  count_ev EvLeaseRelease (log (snd (rollback 1 (set_fails s_nested [false; true])))) = 0%nat /\
  connection_holders (sess (snd (rollback 1 (set_fails s_nested [false; true])))) = 2.
Proof. vm_compute. repeat split. Qed.

(** C5 (code_bug): [cursor = await conn.cursor()] sits before the [try]; when
    it raises, [fetchall], [fetchone] and [execute] keep the lease: the
    count stays 1 and the connection is never given back. *)
Theorem C5_cursor_error_leaks_lease :
  let q := mkQuery "SELECT 1" [] [] in
  let s0 := new_session [false; false; true] [] [] in
  (fst (fetchall q s0) = inl DriverError /\
   connection_holders (sess (snd (fetchall q s0))) = 1 /\
   conn (sess (snd (fetchall q s0))) = Some 0%nat /\
   count_ev EvLeaseRelease (log (snd (fetchall q s0))) = 0%nat) /\
  (fst (fetchone q s0) = inl DriverError /\
   connection_holders (sess (snd (fetchone q s0))) = 1 /\
   conn (sess (snd (fetchone q s0))) = Some 0%nat /\
   count_ev EvLeaseRelease (log (snd (fetchone q s0))) = 0%nat) /\
  (fst (execute q s0) = inl DriverError /\
   connection_holders (sess (snd (execute q s0))) = 1 /\
   conn (sess (snd (execute q s0))) = Some 0%nat /\
   count_ev EvLeaseRelease (log (snd (execute q s0))) = 0%nat).
Proof. vm_compute. repeat split. Qed.

(** C2 counterexample: a release never paired with an acquire returns
    normally and leaves the count at -1. *)
Lemma C2_unpaired_release_silent :
  fst (release_connection (new_session [] [] [])) = inr tt /\
  connection_holders (sess (snd (release_connection (new_session [] [] [])))) = -1.
Proof. vm_compute. split; reflexivity. Qed.

(** C3 counterexample: a second [rollback] of the first root transaction
    clears the flag set by the second root, and a third transaction then
    also starts as root while the second is still open. *)
Lemma C3_two_open_roots :
  let w := run_world (init_world [] [] [])
             [CNew; CStart 0; CRollback 0; CNew; CStart 1; CRollback 0; CNew; CStart 2] in
  w_phase w !! 1%nat = Some Active /\ w_phase w !! 2%nat = Some Active /\
  (is_root <$> (txs (w_st w) !! 1%nat)) = Some true /\
  (is_root <$> (txs (w_st w) !! 2%nat)) = Some true /\
  w_setter (run_world (init_world [] [] []) [CNew; CStart 0; CRollback 0; CNew; CStart 1])
    = Some 1%nat /\
  has_root_transaction (sess (w_st (run_world (init_world [] [] [])
    [CNew; CStart 0; CRollback 0; CNew; CStart 1; CRollback 0]))) = false.
Proof. vm_compute. repeat split. Qed.

(** C4 counterexample: when the pool raises in [acquire_connection] the count
    is 1 with no connection; an acquire after an unpaired release leaves a
    leased connection with count 0. *)
Lemma C4_invariant_broken :
  conn (sess (snd (acquire_connection (new_session [true] [] [])))) = None /\
  connection_holders (sess (snd (acquire_connection (new_session [true] [] [])))) = 1 /\
  conn (sess (run_lease [LRelease; LAcquire] (new_session [] [] []))) = Some 0%nat /\
  connection_holders (sess (run_lease [LRelease; LAcquire] (new_session [] [] []))) = 0.
Proof. vm_compute. repeat split. Qed.

(** C6 counterexample: rolling back a root transaction a second time returns
    normally, issues ROLLBACK again and releases the lease again. *)
Lemma C6_double_rollback_succeeds :
  fst (rollback 0 (snd (rollback 0 s_root))) = inr tt /\
  count_ev (EvRollback 0) (log (snd (rollback 0 (snd (rollback 0 s_root))))) = 2%nat /\
  connection_holders (sess (snd (rollback 0 (snd (rollback 0 s_root))))) = -1.
Proof. vm_compute. repeat split. Qed.

(** ** Record lookup *)

Section ColumnMap.


Lemma column_map_fold (cols : list Column) :
  _column_map cols = foldl ins_col ∅ (imap pair cols).
Proof. reflexivity. Qed.

Lemma fold_ins_col_Some (l : list (nat * Column)) m k v :
  foldl ins_col m l !! k = Some v ->
  (v ∈ l /\ col_name v.2 = k) \/ m !! k = Some v.
Proof.
  revert m. induction l as [|[i c] l IH]; intros m H; simpl in H.
  - by right.
  - destruct (IH _ H) as [[Hin Hk]|Hm].
    + left. split; [by right|done].
    + destruct (decide (col_name c = k)) as [<-|Hne].
      * rewrite lookup_insert_eq in Hm. inversion Hm; subst.
        left. split; [left|done].
      * rewrite lookup_insert_ne in Hm by done. by right.
Qed.

Lemma fold_ins_col_None (l : list (nat * Column)) m k :
  foldl ins_col m l !! k = None <->
  m !! k = None /\ Forall (fun p : nat * Column => col_name p.2 <> k) l.
Proof.
  revert m. induction l as [|[i c] l IH]; intros m; simpl.
  - split; [intros H; split; [done|constructor]|tauto].
  - rewrite IH, Forall_cons. simpl.
    destruct (decide (col_name c = k)) as [<-|Hne].
    + rewrite lookup_insert_eq. split; [intros [? _]; done|intros [_ [? _]]; done].
    + rewrite lookup_insert_ne by done. tauto.
Qed.

Lemma Forall_names_imap (g : nat -> nat) (cols : list Column) k :
  Forall (fun p : nat * Column => col_name p.2 <> k) (imap (fun i c => (g i, c)) cols)
  <-> ~ In k (map col_name cols).
Proof.
  revert g. induction cols as [|c cols IH]; intros g; simpl.
  - split; [intros _ []|constructor].
  - rewrite Forall_cons. specialize (IH (fun i => g (S i))). simpl.
    change (imap ((fun i c => (g i, c)) ∘ S) cols)
      with (imap (fun i c => (g (S i), c)) cols).
    rewrite IH. intuition.
Qed.

Lemma column_map_None (cols : list Column) k :
  _column_map cols !! k = None <-> ~ In k (map col_name cols).
Proof.
  rewrite column_map_fold, fold_ins_col_None, lookup_empty.
  rewrite <- (Forall_names_imap (fun i => i)). tauto.
Qed.

Lemma column_map_Some (cols : list Column) k idx col :
  _column_map cols !! k = Some (idx, col) ->
  cols !! idx = Some col /\ col_name col = k.
Proof.
  rewrite column_map_fold. intros H.
  destruct (fold_ins_col_Some _ _ _ _ H) as [[Hin Hk]|Hm];
    [|by rewrite lookup_empty in Hm].
  apply list_elem_of_lookup in Hin as [i Hi].
  rewrite list_lookup_imap in Hi.
  destruct (cols !! i) as [c|] eqn:Hc; simpl in Hi; inversion Hi; subst.
  done.
Qed.

End ColumnMap.

(** C9: lookup by name resolves the name through the column map to a
    position and its descriptor (the descriptor at that position, with that
    name), applies the descriptor's conversion to the raw value there and
    returns the result; it raises KeyError exactly when no descriptor has
    the name (the other failures are TypeError, IndexError and
    ConversionError, never KeyError). *)
Theorem C9_record_getitem (r : DbRecord) (key : string) :
  (getitem r key = inl KeyError <-> ~ In key (map col_name (_result_columns r))) /\
  (forall idx col,
     _column_map (_result_columns r) !! key = Some (idx, col) ->
     _result_columns r !! idx = Some col /\ col_name col = key /\
     getitem r key =
       match _row r with
       | None => inl TypeError
       | Some row =>
           match row !! idx with
           | None => inl IndexError
           | Some raw =>
               match python_type col raw with
               | Some v => inr v
               | None => inl ConversionError
               end
           end
       end) /\
  (In key (map col_name (_result_columns r)) ->
   exists idx col, _column_map (_result_columns r) !! key = Some (idx, col)).
Proof.
  split; [|split].
  - rewrite <- column_map_None. unfold getitem.
    destruct (_column_map (_result_columns r) !! key) as [[idx col]|]; [|tauto].
    split; [|discriminate].
    destruct (_row r) as [row|]; [|discriminate].
    destruct (row !! idx); [|discriminate].
    destruct (python_type col v); discriminate.
  - intros idx col Hm. destruct (column_map_Some _ _ _ _ Hm) as [Hl Hk].
    repeat split; try done. unfold getitem. by rewrite Hm.
  - intros Hin. destruct (_column_map (_result_columns r) !! key) as [[idx col]|] eqn:E.
    + eauto.
    + apply column_map_None in E. contradiction.
Qed.


Example record_example :
  let r := mkRecord (Some [VInt 1; VStr "alice"])
             [mkColumn "id" py_int; mkColumn "name" py_str] in
  getitem r "name" = inr (VStr "alice") /\ getitem r "missing" = inl KeyError.
Proof. split; reflexivity. Qed.

(** ** fetchone on an empty result *)

(** C10: when the statement yields no rows and no collaborator raises,
    [fetchone] returns a [Record] wrapping [None]; the missing row only
    shows at lookup: a known field raises TypeError, an unknown one
    KeyError. *)
Theorem C10_fetchone_empty_result (q : Query) (s : St) :
  fails s = [] ->
  hd [] (results s) = [] ->
  fst (fetchone q s) = inr (mkRecord None (q_cols q)) /\
  (forall key, In key (map col_name (q_cols q)) ->
     getitem (mkRecord None (q_cols q)) key = inl TypeError) /\
  (forall key, ~ In key (map col_name (q_cols q)) ->
     getitem (mkRecord None (q_cols q)) key = inl KeyError).
Proof.
  intros Hf Hr. split; [|split].
  - destruct s as [[c h b] ts lg f rs us n lr]; simpl in Hf, Hr; subst f.
    unfold fetchone, _compile, acquire_connection, conn_cursor, cursor_execute,
      cursor_fetchone, cursor_close, release_connection, pool_acquire, pool_release,
      try_finally, bind, external, note, modify, modify_sess, get, ret, fresh_id.
    destruct c; destruct rs as [|r0 rs]; simpl in Hr; try subst r0; cbn.
    all: destruct (Z.eqb _ 0); simpl; reflexivity.
  - intros key Hin. unfold getitem. cbn [_result_columns _row].
    destruct (_column_map (q_cols q) !! key) as [[idx col]|] eqn:E; [reflexivity|].
    apply column_map_None in E. contradiction.
  - intros key Hin. unfold getitem. cbn [_result_columns _row].
    apply column_map_None in Hin. rewrite Hin. reflexivity.
Qed.
Lemma C10_fetchone_empty_result_witness :
  fst (fetchone (mkQuery "SELECT id FROM t" [] [mkColumn "id" py_int]) (new_session [] [] []))
    = inr (mkRecord None [mkColumn "id" py_int]).
Proof.
  exact (proj1 (C10_fetchone_empty_result (mkQuery "SELECT id FROM t" [] [mkColumn "id" py_int])
                  (new_session [] [] []) eq_refl eq_refl)).
Defined.


(** ** Connection leasing *)

Section Leasing.

Lemma acquire_holders (s : St) :
  connection_holders (sess (snd (acquire_connection s))) = connection_holders (sess s) + 1.
Proof. destruct s as [[[c|] h b] ts lg [|[] f] rs us n lr]; reflexivity. Qed.

Lemma release_holders (s : St) :
  connection_holders (sess (snd (release_connection s))) = connection_holders (sess s) - 1.
Proof.
  destruct s as [[c h b] ts lg [|[] f] rs us n lr]; cbn;
    destruct (Z.eqb (h - 1) 0); reflexivity.
Qed.

Lemma lease_op_holders (o : LeaseOp) (s : St) :
  connection_holders (sess (snd (lease_op o s))) =
  connection_holders (sess s) + (match o with LAcquire => 1 | LRelease => -1 end).
Proof.
  destruct o; simpl.
  - unfold bind at 1. destruct (acquire_connection s) as [[e|a] s'] eqn:E;
      simpl; rewrite <- acquire_holders, E; reflexivity.
  - rewrite release_holders. lia.
Qed.

Lemma run_lease_holders (ops : list LeaseOp) (s : St) :
  connection_holders (sess (run_lease ops s)) = connection_holders (sess s) + lease_balance ops.
Proof.
  revert s. induction ops as [|o ops IH]; intros s; simpl; [lia|].
  rewrite IH, lease_op_holders. destruct o; lia.
Qed.

Lemma paired_nonneg (ops : list LeaseOp) (h : Z) :
  0 <= h -> paired h ops = true -> 0 <= h + lease_balance ops.
Proof.
  revert h. induction ops as [|[|] ops IH]; intros h Hh Hp; simpl in *; [lia| |].
  - specialize (IH (h + 1) ltac:(lia) Hp). lia.
  - apply andb_prop in Hp as [Hlt Hp]. apply Z.ltb_lt in Hlt.
    specialize (IH (h - 1) ltac:(lia) Hp). lia.
Qed.

Lemma acquire_inv (s : St) :
  lease_inv (sess s) -> hd false (fails s) = false ->
  lease_inv (sess (snd (acquire_connection s))).
Proof.
  unfold lease_inv.
  destruct s as [[[c|] h b] ts lg [|[] f] rs us n lr]; cbn; intros [H0 Hiff] Hf;
    try discriminate.
  all: split; [lia|split; [intros _; lia|congruence]].
Qed.

Lemma release_inv (s : St) :
  lease_inv (sess s) -> 0 < connection_holders (sess s) -> hd false (fails s) = false ->
  lease_inv (sess (snd (release_connection s))).
Proof.
  unfold lease_inv.
  destruct s as [[c h b] ts lg [|[] f] rs us n lr]; cbn; intros [H0 Hiff] Hpos Hf;
    try discriminate.
  all: destruct (Z.eqb_spec (h - 1) 0); cbn.
  all: try (split; [lia|split; [congruence|lia]]).
  all: assert (c <> None) by (apply Hiff; lia).
  all: split; [lia|split; [intros; lia|done]].
Qed.

Lemma acquire_fails (s : St) :
  Forall (fun b => b = false) (fails s) ->
  Forall (fun b => b = false) (fails (snd (acquire_connection s))).
Proof.
  destruct s as [[[c|] h b] ts lg [|[] f] rs us n lr]; cbn; intros Hf; auto;
    by inversion Hf.
Qed.

Lemma release_fails (s : St) :
  Forall (fun b => b = false) (fails s) ->
  Forall (fun b => b = false) (fails (snd (release_connection s))).
Proof.
  destruct s as [[c h b] ts lg [|[] f] rs us n lr]; cbn; intros Hf;
    destruct (Z.eqb (h - 1) 0); cbn; auto; by inversion Hf.
Qed.

Lemma lease_op_acquire_snd (s : St) :
  snd (lease_op LAcquire s) = snd (acquire_connection s).
Proof.
  unfold lease_op, bind. destruct (acquire_connection s) as [[] ?]; reflexivity.
Qed.

Lemma run_lease_inv (ops : list LeaseOp) (s : St) (h : Z) :
  lease_inv (sess s) -> connection_holders (sess s) = h ->
  Forall (fun b => b = false) (fails s) -> paired h ops = true ->
  lease_inv (sess (run_lease ops s)) /\
  connection_holders (sess (run_lease ops s)) = h + lease_balance ops.
Proof.
  revert s h. induction ops as [|o ops IH]; intros s h Hinv Hh Hf Hp;
    [simpl; split; [done|lia]|].
  change (run_lease (o :: ops) s) with (run_lease ops (snd (lease_op o s))).
  assert (Hd : hd false (fails s) = false) by (inversion Hf; simpl; auto).
  destruct o; simpl in Hp.
  - rewrite lease_op_acquire_snd.
    destruct (IH (snd (acquire_connection s)) (h + 1)) as [Hi Hc].
    + by apply acquire_inv.
    + rewrite acquire_holders. lia.
    + by apply acquire_fails.
    + done.
    + split; [done|simpl; lia].
  - apply andb_prop in Hp as [Hlt Hp]. apply Z.ltb_lt in Hlt.
    destruct (IH (snd (release_connection s)) (h - 1)) as [Hi Hc].
    + apply release_inv; auto. lia.
    + rewrite release_holders. lia.
    + by apply release_fails.
    + done.
    + split; [done|simpl; lia].
Qed.

End Leasing.

Lemma balanced_end (ops : list LeaseOp) (s : St) :
  lease_inv (sess s) -> connection_holders (sess s) = 0 ->
  Forall (fun b => b = false) (fails s) -> balanced ops = true ->
  connection_holders (sess (run_lease ops s)) = 0 /\ conn (sess (run_lease ops s)) = None.
Proof.
  intros Hinv Hh Hf Hb. unfold balanced in Hb.
  apply andb_prop in Hb as [Hp Hz]. apply Z.eqb_eq in Hz.
  destruct (run_lease_inv ops s 0 Hinv Hh Hf Hp) as [[Hnn Hiff] Hc].
  rewrite Hz in Hc. split; [lia|].
  destruct (conn (sess (run_lease ops s))) as [c|] eqn:E; [|done].
  exfalso. assert (Hlt : Some c <> None) by discriminate.
  apply Hiff in Hlt. lia.
Qed.

(** C2 (corrected): [release_connection] makes no check on the count: it
    always decrements it; called at count 0 it returns normally, leaves the
    count at -1, keeps the connection attribute and calls no pool method.
    The count stays non-negative along any sequence in which every release
    is preceded by a matching acquire. *)
Theorem C2_release_unchecked :
  (forall s : St,
     connection_holders (sess (snd (release_connection s))) =
     connection_holders (sess s) - 1) /\
  (forall s : St, connection_holders (sess s) = 0 ->
     fst (release_connection s) = inr tt /\
     connection_holders (sess (snd (release_connection s))) = -1 /\
     conn (sess (snd (release_connection s))) = conn (sess s) /\
     log (snd (release_connection s)) = log s ++ [EvLeaseRelease]) /\
  (forall (ops : list LeaseOp) (fl : list bool), paired 0 ops = true ->
     0 <= connection_holders (sess (run_lease ops (new_session fl [] [])))).
Proof.
  split; [|split].
  - exact release_holders.
  - intros [[c h b] ts lg f rs us n lr] Hh; simpl in Hh; subst h. cbn.
    repeat split; reflexivity.
  - intros ops fl Hp. rewrite run_lease_holders. simpl.
    apply (paired_nonneg ops 0); [lia|done].
Qed.

Lemma C2_release_unchecked_witness :
  connection_holders (sess (new_session [] [] [])) = 0 /\
  fst (release_connection (new_session [] [] [])) = inr tt /\
  paired 0 [LAcquire; LRelease] = true /\
  0 <= connection_holders (sess (run_lease [LAcquire; LRelease] (new_session [] [] []))).
Proof.
  split; [reflexivity|split; [|split; [reflexivity|]]].
  - apply (proj1 ((proj1 (proj2 C2_release_unchecked)) (new_session [] [] []) eq_refl)).
  - apply (proj2 (proj2 C2_release_unchecked) [LAcquire; LRelease] []). reflexivity.
Defined.

(** C4 (corrected): the invariant (count >= 0, and a connection is leased
    iff the count is positive) is preserved by [acquire_connection] when its
    pool call returns normally, and by [release_connection] when the count is
    positive and its pool call returns normally; after a balanced sequence
    of calls on a fresh session in which no pool call raises, the count is 0
    and no connection is leased. *)
Theorem C4_lease_invariant :
  (forall s : St, lease_inv (sess s) -> hd false (fails s) = false ->
     lease_inv (sess (snd (acquire_connection s)))) /\
  (forall s : St, lease_inv (sess s) -> 0 < connection_holders (sess s) ->
     hd false (fails s) = false ->
     lease_inv (sess (snd (release_connection s)))) /\
  (forall (ops : list LeaseOp) (fl : list bool),
     balanced ops = true -> Forall (fun b => b = false) fl ->
     connection_holders (sess (run_lease ops (new_session fl [] []))) = 0 /\
     conn (sess (run_lease ops (new_session fl [] []))) = None).
Proof.
  split; [exact acquire_inv|split; [exact release_inv|]].
  intros ops fl Hb Hf. apply balanced_end; [|reflexivity|done|done].
  unfold lease_inv; simpl; split; [lia|split; [congruence|lia]].
Qed.

Lemma C4_lease_invariant_witness :
  lease_inv (sess (snd (acquire_connection (new_session [] [] [])))) /\
  lease_inv (sess (snd (release_connection (snd (acquire_connection (new_session [] [] [])))))) /\
  connection_holders (sess (run_lease [LAcquire; LAcquire; LRelease; LRelease]
                              (new_session [false] [] []))) = 0.
Proof.
  assert (H0 : lease_inv (sess (new_session [] [] [])))
    by (unfold lease_inv; simpl; split; [lia|split; [congruence|lia]]).
  assert (H1 : lease_inv (sess (snd (acquire_connection (new_session [] [] [])))))
    by (apply (proj1 C4_lease_invariant); [exact H0|reflexivity]).
  split; [exact H1|split].
  - apply (proj1 (proj2 C4_lease_invariant)); [exact H1|vm_compute; reflexivity|reflexivity].
  - apply (proj2 (proj2 C4_lease_invariant)); [reflexivity|repeat constructor].
Defined.

(** ** executemany *)

Lemma executemany_loop_ok (q : Query) (k : nat) (values : list (list Val))
      x ts lg rs us n lr :
  exists rs' lr',
    executemany_loop q k values (mkSt x ts lg [] rs us n lr) =
    (inr tt, mkSt x ts (lg ++ flat_map (fun item =>
                 [EvCompile (q_text q) item; EvExec k (q_text q) item]) values)
             [] rs' us n lr').
Proof.
  revert lg rs lr. induction values as [|item values IH]; intros lg rs lr.
  - exists rs, lr. simpl. by rewrite app_nil_r.
  - destruct rs as [|r rs].
    + destruct (IH ((lg ++ [EvCompile (q_text q) item]) ++ [EvExec k (q_text q) item]) [] [])
        as (rs' & lr' & E).
      exists rs', lr'. cbn. rewrite E. by rewrite <- !app_assoc.
    + destruct (IH ((lg ++ [EvCompile (q_text q) item]) ++ [EvExec k (q_text q) item]) rs r)
        as (rs' & lr' & E).
      exists rs', lr'. cbn. rewrite E. by rewrite <- !app_assoc.
Qed.

(** C7: with a driver that raises nothing, [executemany] over N value sets
    calls [acquire_connection] once, opens one cursor, compiles and executes
    exactly N statements, all on that cursor, and then closes it and calls
    [release_connection] once; for N = 0 the log is acquire, cursor, close,
    release. *)
Theorem C7_executemany_single_lease (q : Query) (values : list (list Val)) (s : St) :
  fails s = [] ->
  fst (executemany q values s) = inr tt /\
  connection_holders (sess (snd (executemany q values s))) = connection_holders (sess s) /\
  exists c k pool_acq pool_rel,
    (pool_acq = [] \/ pool_acq = [EvPoolAcquire c]) /\
    (pool_rel = [] \/ pool_rel = [EvPoolRelease (Some c)]) /\
    log (snd (executemany q values s)) =
      log s ++ [EvLeaseAcquire] ++ pool_acq ++ [EvCursor c k] ++
      flat_map (fun item => [EvCompile (q_text q) item; EvExec k (q_text q) item]) values ++
      [EvClose k; EvLeaseRelease] ++ pool_rel.
Proof.
  intros Hf.
  destruct s as [[co h b] ts lg f rs us n lr]; simpl in Hf; subst f.
  unfold executemany.
  unfold try_finally.
  destruct co as [c|]; cbn -[executemany_loop];
  match goal with
  | |- context [executemany_loop ?q ?k ?v (mkSt ?x ?ts ?lg [] ?rs ?us ?n ?lr)] =>
      destruct (executemany_loop_ok q k v x ts lg rs us n lr) as (rs' & lr' & E);
      rewrite E
  end; cbn.
  all: destruct (Z.eqb_spec (h + 1 - 1) 0); cbn.
  all: split; [reflexivity|split; [lia|]].
  all: first
    [ solve [exists c, n, [], [EvPoolRelease (Some c)]; split; [auto|split; [auto|]];
             rewrite <- !app_assoc; reflexivity]
    | solve [exists c, n, [], []; split; [auto|split; [auto|]];
             rewrite <- !app_assoc; reflexivity]
    | solve [exists n, (S n), [EvPoolAcquire n], [EvPoolRelease (Some n)];
             split; [auto|split; [auto|]]; rewrite <- !app_assoc; reflexivity]
    | solve [exists n, (S n), [EvPoolAcquire n], []; split; [auto|split; [auto|]];
             rewrite <- !app_assoc; reflexivity] ].
Qed.

Lemma C7_executemany_single_lease_witness :
  fails (new_session [] [] []) = [] /\
  fst (executemany (mkQuery "INSERT" [] []) [[VInt 1]; [VInt 2]] (new_session [] [] [])) = inr tt.
Proof.
  split; [reflexivity|].
  apply (C7_executemany_single_lease (mkQuery "INSERT" [] []) [[VInt 1]; [VInt 2]]
           (new_session [] [] [])).
  reflexivity.
Defined.


(** ** Savepoint names *)

Section SavepointName.

Lemma hex_digit_facts (d : Z) :
  0 <= d < 16 ->
  ident_char (hex_digit d) = true /\ hex_value (hex_digit d) = d /\
  Ascii.eqb (hex_digit d) "_"%char = false /\ Ascii.eqb (hex_digit d) "-"%char = false.
Proof.
  intros Hd.
  assert (d = 0 \/ d = 1 \/ d = 2 \/ d = 3 \/ d = 4 \/ d = 5 \/ d = 6 \/ d = 7 \/
          d = 8 \/ d = 9 \/ d = 10 \/ d = 11 \/ d = 12 \/ d = 13 \/ d = 14 \/ d = 15)
    as Hc by lia.
  repeat destruct Hc as [-> | Hc]; [..|subst d]; vm_compute; repeat split.
Qed.

Lemma nibbles_range (n : nat) (u : Z) :
  Forall (fun d => 0 <= d < 16) (nibbles n u).
Proof.
  revert u. induction n as [|n IH]; intros u; simpl; [constructor|].
  apply Forall_app. split; [apply IH|]. constructor; [|constructor].
  apply Z.mod_pos_bound. lia.
Qed.

Lemma decode_nibbles (n : nat) (u : Z) :
  foldl (fun acc d => acc * 16 + d) 0 (nibbles n u) = u mod 16 ^ Z.of_nat n.
Proof.
  revert u. induction n as [|n IH]; intros u; simpl nibbles.
  - simpl. rewrite Z.mod_1_r. reflexivity.
  - rewrite foldl_app. simpl. rewrite IH.
    rewrite Nat2Z.inj_succ, Z.pow_succ_r by lia.
    rewrite (Z.rem_mul_r u 16 (16 ^ Z.of_nat n)) by (try apply Z.pow_pos_nonneg; lia).
    lia.
Qed.

Lemma uuid_str_chars (u : Z) : Forall uuid_char (uuid_str u).
Proof.
  assert (Hh : Forall uuid_char (map hex_digit (nibbles 32 u))).
  { apply Forall_map. eapply Forall_impl; [apply nibbles_range|].
    intros d Hd. right. exists d. split; [exact Hd|reflexivity]. }
  assert (Hy : Forall uuid_char ["-"%char]) by (constructor; [left; reflexivity|constructor]).
  unfold uuid_str. cbv zeta. revert Hh.
  generalize (map hex_digit (nibbles 32 u)) as h. intros h Hh.
  repeat apply Forall_app_2;
    first [exact Hy | apply Forall_take; apply Forall_drop; exact Hh
          | apply Forall_take; exact Hh | apply Forall_drop; exact Hh].
Qed.

Lemma replace_hyphen_ident (l : list ascii) :
  Forall uuid_char l -> forallb ident_char (replace_hyphen l) = true.
Proof.
  induction 1 as [|ch l [-> | (d & Hd & ->)] _ IH]; simpl; [done|done|].
  destruct (hex_digit_facts d Hd) as (Hi & _ & _ & Hm).
  rewrite Hm, Hi. exact IH.
Qed.

Lemma strip_app (l1 l2 : list ascii) : strip (l1 ++ l2) = strip l1 ++ strip l2.
Proof. unfold strip, replace_hyphen. by rewrite map_app, List.filter_app. Qed.

Lemma strip_hex (l : list ascii) :
  Forall (fun ch => exists d, 0 <= d < 16 /\ ch = hex_digit d) l -> strip l = l.
Proof.
  induction 1 as [|ch l (d & Hd & ->) _ IH]; [done|].
  destruct (hex_digit_facts d Hd) as (_ & _ & Hu & Hm).
  unfold strip in *. simpl. rewrite Hm. simpl. rewrite Hu. simpl. by rewrite IH.
Qed.

Lemma take_drop_segments (h : list ascii) :
  take 8 h ++ take 4 (drop 8 h) ++ take 4 (drop 12 h) ++ take 4 (drop 16 h) ++ drop 20 h = h.
Proof.
  replace (drop 20 h) with (drop 4 (drop 16 h)) by (rewrite drop_drop; reflexivity).
  rewrite take_drop.
  replace (drop 16 h) with (drop 4 (drop 12 h)) by (rewrite drop_drop; reflexivity).
  rewrite take_drop.
  replace (drop 12 h) with (drop 4 (drop 8 h)) by (rewrite drop_drop; reflexivity).
  rewrite take_drop. apply take_drop.
Qed.

Lemma strip_uuid_str (u : Z) : strip (uuid_str u) = map hex_digit (nibbles 32 u).
Proof.
  assert (Hh : Forall (fun ch => exists d, 0 <= d < 16 /\ ch = hex_digit d)
                      (map hex_digit (nibbles 32 u))).
  { apply Forall_map. eapply Forall_impl; [apply nibbles_range|].
    intros d Hd. exists d. split; [exact Hd|reflexivity]. }
  unfold uuid_str. cbv zeta. revert Hh.
  generalize (map hex_digit (nibbles 32 u)) as h. intros h Hh. rewrite !strip_app.
  change (strip ["-"%char]) with (@nil ascii). rewrite !app_nil_l.
  rewrite !strip_hex by (first [apply Forall_take; apply Forall_drop; exact Hh
                               | apply Forall_take; exact Hh | apply Forall_drop; exact Hh]).
  apply take_drop_segments.
Qed.

Lemma decode_hex (ns : list Z) (acc : Z) :
  Forall (fun d => 0 <= d < 16) ns ->
  foldl (fun acc ch => acc * 16 + hex_value ch) acc (map hex_digit ns) =
  foldl (fun acc d => acc * 16 + d) acc ns.
Proof.
  intros H. revert acc. induction H as [|d ns Hd _ IH]; intros acc; [done|].
  simpl. destruct (hex_digit_facts d Hd) as (_ & Hv & _). rewrite Hv. apply IH.
Qed.

Lemma list_ascii_of_string_append (s1 s2 : string) :
  list_ascii_of_string (s1 ++ s2) = list_ascii_of_string s1 ++ list_ascii_of_string s2.
Proof. induction s1 as [|ch s1 IH]; [reflexivity|]. simpl. f_equal. exact IH. Qed.

Lemma savepoint_chars (u : Z) :
  list_ascii_of_string (savepoint_of_uuid u) =
  list_ascii_of_string "STARLETTE_SAVEPOINT_" ++ replace_hyphen (uuid_str u).
Proof.
  unfold savepoint_of_uuid.
  by rewrite list_ascii_of_string_append, list_ascii_of_string_of_list_ascii.
Qed.

Lemma savepoint_ident_ok (u : Z) : ident_ok (savepoint_of_uuid u) = true.
Proof.
  unfold ident_ok. rewrite savepoint_chars, forallb_app.
  rewrite replace_hyphen_ident by apply uuid_str_chars. reflexivity.
Qed.

Lemma savepoint_roundtrip (u : Z) :
  0 <= u < 2 ^ 128 -> uuid_of_savepoint (savepoint_of_uuid u) = u.
Proof.
  intros Hu. unfold uuid_of_savepoint. rewrite savepoint_chars.
  change 20%nat with (length (list_ascii_of_string "STARLETTE_SAVEPOINT_")).
  rewrite drop_app_length.
  fold (strip (uuid_str u)). rewrite strip_uuid_str.
  rewrite decode_hex by apply nibbles_range. rewrite decode_nibbles.
  apply Z.mod_small. change (16 ^ Z.of_nat 32) with (2 ^ 128). lia.
Qed.

End SavepointName.

(** ** Stepping through the monad *)

Lemma bind_step {A B} (m : M A) (f : A -> M B) s a s' :
  m s = (inr a, s') -> bind m f s = f a s'.
Proof. unfold bind. intros ->. reflexivity. Qed.

Lemma bind_get {B} (f : St -> M B) s : bind get f s = f s s.
Proof. reflexivity. Qed.

Lemma modify_tx_ok (i : nat) g t x ts lg f r u n l :
  ts !! i = Some t ->
  modify_tx i g (mkSt x ts lg f r u n l) = (inr tt, mkSt x (<[i := g t]> ts) lg f r u n l).
Proof. simpl. intros ->. reflexivity. Qed.

Lemma get_tx_ok (i : nat) t x ts lg f r u n l :
  ts !! i = Some t -> get_tx i (mkSt x ts lg f r u n l) = (inr t, mkSt x ts lg f r u n l).
Proof. unfold get_tx. simpl. intros ->. reflexivity. Qed.

Lemma conn_cursor_ok c x ts lg r u n l :
  conn_cursor (Some c) (mkSt x ts lg [] r u n l) =
  (inr n, mkSt x ts (lg ++ [EvCursor c n]) [] r u (S n) l).
Proof. reflexivity. Qed.

Lemma read_savepoint_ok (i : nat) p nm t x ts lg f r u n l :
  ts !! i = Some t -> savepoint_name t = Some nm ->
  read_savepoint i p (mkSt x ts lg f r u n l) = (inr (p ++ nm)%string, mkSt x ts lg f r u n l).
Proof.
  intros Ht Hn. unfold read_savepoint.
  rewrite (bind_step _ _ _ _ _ (get_tx_ok _ _ _ _ _ _ _ _ _ _ Ht)). rewrite Hn. reflexivity.
Qed.

Lemma uuid4_ok x ts lg f r us n l :
  uuid4 (mkSt x ts lg f r us n l) = (inr (hd 0 us), mkSt x ts lg f r (tl us) n l).
Proof. by destruct us. Qed.

Lemma acquire_ok x ts lg rs us n lr :
  exists c pool n',
    (pool = [] \/ pool = [EvPoolAcquire c]) /\
    acquire_connection (mkSt x ts lg [] rs us n lr) =
    (inr (Some c), mkSt (mkSession (Some c) (connection_holders x + 1) (has_root_transaction x))
                        ts (lg ++ [EvLeaseAcquire] ++ pool) [] rs us n' lr).
Proof.
  destruct x as [[c|] h b].
  - exists c, [], n. split; [by left|]. reflexivity.
  - exists n, [EvPoolAcquire n], (S n). split; [by right|]. cbn. by rewrite <- !app_assoc.
Qed.

Lemma insert_lookup_same (ts : list Transaction) (i : nat) t x :
  ts !! i = Some t -> <[i := x]> ts !! i = Some x.
Proof. intros H. apply list_lookup_insert_eq. eapply lookup_lt_Some; eauto. Qed.

(** ** start *)

(** [start] with a driver that raises nothing. *)
Lemma start_ok (i : nat) (s : St) (t : Transaction) :
  fails s = [] -> txs s !! i = Some t ->
  fst (start i s) = inr tt /\
  has_root_transaction (sess (snd (start i s))) = true /\
  exists c pool,
    conn (sess (snd (start i s))) = Some c /\
    (pool = [] \/ pool = [EvPoolAcquire c]) /\
    (if is_root t || negb (has_root_transaction (sess s)) then
       txs (snd (start i s)) !! i = Some (mkTransaction true (Some c) (savepoint_name t)) /\
       log (snd (start i s)) = log s ++ [EvLeaseAcquire] ++ pool ++ [EvBegin c]
     else
       exists k name,
         name = savepoint_of_uuid (hd 0 (uuids s)) /\
         txs (snd (start i s)) !! i = Some (mkTransaction false (Some c) (Some name)) /\
         log (snd (start i s)) = log s ++ [EvLeaseAcquire] ++ pool ++
            [EvCursor c k; EvExec k ("SAVEPOINT " ++ name) []; EvClose k]).
Proof.
  intros Hf Hi.
  destruct s as [[co h b] ts lg f rs us n lr]; simpl in Hf, Hi |- *; subst f.
  unfold start. rewrite bind_get. cbv beta. cbn [sess has_root_transaction].
  (* the root flag *)
  set (t1 := if Bool.eqb b false then mkTransaction true (t_conn t) (savepoint_name t) else t).
  assert (Hpre : (if Bool.eqb b false then
                    set_flag true >> modify_tx i (fun t => mkTransaction true (t_conn t) (savepoint_name t))
                  else ret tt) (mkSt (mkSession co h b) ts lg [] rs us n lr) =
                 (inr tt, mkSt (mkSession co h true)
                                (if Bool.eqb b false then <[i := t1]> ts else ts) lg [] rs us n lr)).
  { subst t1. destruct b; cbn [Bool.eqb]; [reflexivity|].
    unfold bind. cbn. rewrite Hi. reflexivity. }
  rewrite (bind_step _ _ _ _ _ Hpre). clear Hpre.
  set (ts1 := if Bool.eqb b false then <[i := t1]> ts else ts).
  assert (Hi1 : ts1 !! i = Some t1).
  { subst ts1 t1. destruct b; cbn [Bool.eqb]; [exact Hi|]. eapply insert_lookup_same; eauto. }
  assert (Hr1 : is_root t1 = is_root t || negb b) by (subst t1; destruct b; simpl; destruct (is_root t); reflexivity).
  assert (Hs1 : savepoint_name t1 = savepoint_name t) by (subst t1; destruct b; reflexivity).
  clearbody ts1 t1. clear Hi.
  destruct (acquire_ok (mkSession co h true) ts1 lg rs us n lr) as (c & pool & n' & Hpool & Ea).
  rewrite (bind_step _ _ _ _ _ Ea). cbv beta. cbn [connection_holders has_root_transaction].
  rewrite (bind_step _ _ _ _ _ (modify_tx_ok _ _ _ _ _ _ _ _ _ _ _ Hi1)). cbv beta.
  set (t2 := mkTransaction (is_root t1) (Some c) (savepoint_name t1)).
  set (ts2 := <[i:=t2]> ts1).
  assert (Hi2 : ts2 !! i = Some t2) by (eapply insert_lookup_same; eauto).
  clearbody ts2.
  rewrite (bind_step _ _ _ _ _ (get_tx_ok _ _ _ _ _ _ _ _ _ _ Hi2)). cbv beta.
  subst t2. cbn [is_root t_conn savepoint_name]. rewrite Hr1.
  destruct (is_root t || negb b).
  - cbn. rewrite Hr1, Hs1 in Hi2. split; [done|split; [done|]].
    exists c, pool. split; [done|split; [done|]]. split; [exact Hi2|].
    by rewrite <- app_assoc.
  - rewrite Hr1 in Hi2.
    rewrite (bind_step _ _ _ _ _ (uuid4_ok _ _ _ _ _ _ _ _)). cbv beta.
    rewrite (bind_step _ _ _ _ _ (modify_tx_ok _ _ _ _ _ _ _ _ _ _ _ Hi2)). cbv beta.
    cbn [is_root t_conn savepoint_name].
    set (name := savepoint_of_uuid (hd 0 us)).
    set (ts3 := <[i:=mkTransaction false (Some c) (Some name)]> ts2).
    assert (Hi3 : ts3 !! i = Some (mkTransaction false (Some c) (Some name)))
      by (eapply insert_lookup_same; eauto).
    clearbody ts3.
    unfold exec_on_fresh_cursor.
    rewrite (bind_step _ _ _ _ _ (conn_cursor_ok _ _ _ _ _ _ _ _)). cbv beta.
    unfold try_finally.
    rewrite (bind_step _ _ _ _ _ (read_savepoint_ok _ _ _ _ _ _ _ _ _ _ _ _ Hi3 eq_refl)).
    destruct rs as [|r0 rs]; cbn; (split; [done|split; [done|]]);
      exists c, pool; (split; [done|split; [done|]]);
      exists n', name; (split; [reflexivity|split; [exact Hi3|]]);
      by rewrite <- !app_assoc.
Qed.

(** C8: savepoint names consist of letters, digits and underscores only, and
    distinct 128-bit [uuid4()] values give distinct names.  With a driver
    that raises nothing, [start] on a transaction that is (or becomes) root
    calls [acquire_connection] and then [begin()] on the leased connection;
    on a nested one it names the savepoint from the next [uuid4()] value and
    runs [SAVEPOINT <name>] on a cursor of that same connection. *)
Theorem C8_start_begin_or_savepoint :
  (forall u : Z, ident_ok (savepoint_of_uuid u) = true) /\
  (forall u v : Z, 0 <= u < 2 ^ 128 -> 0 <= v < 2 ^ 128 ->
     savepoint_of_uuid u = savepoint_of_uuid v -> u = v) /\
  (forall (i : nat) (s : St) (t : Transaction),
   fails s = [] -> txs s !! i = Some t ->
   fst (start i s) = inr tt /\
   has_root_transaction (sess (snd (start i s))) = true /\
   exists c pool,
     conn (sess (snd (start i s))) = Some c /\
     (pool = [] \/ pool = [EvPoolAcquire c]) /\
     (if is_root t || negb (has_root_transaction (sess s)) then
        txs (snd (start i s)) !! i = Some (mkTransaction true (Some c) (savepoint_name t)) /\
        log (snd (start i s)) = log s ++ [EvLeaseAcquire] ++ pool ++ [EvBegin c]
      else
        exists k name,
          name = savepoint_of_uuid (hd 0 (uuids s)) /\
          txs (snd (start i s)) !! i = Some (mkTransaction false (Some c) (Some name)) /\
          log (snd (start i s)) = log s ++ [EvLeaseAcquire] ++ pool ++
             [EvCursor c k; EvExec k ("SAVEPOINT " ++ name) []; EvClose k])).
Proof.
  split; [exact savepoint_ident_ok|split; [|exact start_ok]].
  intros u v Hu Hv E.
  rewrite <- (savepoint_roundtrip u Hu), <- (savepoint_roundtrip v Hv). by rewrite E.
Qed.

Lemma C8_start_begin_or_savepoint_witness :
  fails (snd (transaction (new_session [] [] []))) = [] /\
  txs (snd (transaction (new_session [] [] []))) !! 0%nat = Some new_transaction /\
  fst (start 0 (snd (transaction (new_session [] [] [])))) = inr tt /\
  savepoint_of_uuid 5 <> savepoint_of_uuid 6.
Proof.
  split; [reflexivity|split; [reflexivity|split]].
  - exact (proj1 ((proj2 (proj2 C8_start_begin_or_savepoint)) 0%nat
             (snd (transaction (new_session [] [] []))) new_transaction eq_refl eq_refl)).
  - intros E. apply (proj1 (proj2 C8_start_begin_or_savepoint)) in E; [lia|lia|lia].
Defined.

(** ** Root transactions and the root flag *)

Section Preserves.
Variable R : St -> St -> Prop.
Hypothesis R_refl : forall s, R s s.
Hypothesis R_trans : forall s1 s2 s3, R s1 s2 -> R s2 s3 -> R s1 s3.

Lemma pres_ret {A} (a : A) : preserves R (ret a).
Proof. intros s. apply R_refl. Qed.

Lemma pres_raise {A} e : preserves R (@raise A e).
Proof. intros s. apply R_refl. Qed.

Lemma pres_get : preserves R get.
Proof. intros s. apply R_refl. Qed.

Lemma pres_bind {A B} (m : M A) (f : A -> M B) :
  preserves R m -> (forall a, preserves R (f a)) -> preserves R (bind m f).
Proof.
  intros Hm Hf s. unfold bind. specialize (Hm s).
  destruct (m s) as [[e|a] s1]; [exact Hm|].
  eapply R_trans; [exact Hm|apply Hf].
Qed.

Lemma pres_try_finally {A} (m : M A) (f : M unit) :
  preserves R m -> preserves R f -> preserves R (try_finally m f).
Proof.
  intros Hm Hf s. unfold try_finally. specialize (Hm s).
  destruct (m s) as [r s1]. specialize (Hf s1).
  destruct (f s1) as [[e|[]] s2]; simpl in *; eapply R_trans; eauto.
Qed.

End Preserves.

Lemma same_roots_refl s : same_roots s s.
Proof. split; reflexivity. Qed.

Lemma same_roots_trans s1 s2 s3 : same_roots s1 s2 -> same_roots s2 s3 -> same_roots s1 s3.
Proof. intros [H1 H2] [H3 H4]. split; congruence. Qed.

Lemma sr_external e : preserves same_roots (external e).
Proof. intros [x t lg [|[] f] r u n l]; split; reflexivity. Qed.

Lemma sr_note e : preserves same_roots (note e).
Proof. intros [x t lg f r u n l]; split; reflexivity. Qed.

Lemma sr_fresh_id : preserves same_roots fresh_id.
Proof. intros [x t lg f r u n l]; split; reflexivity. Qed.

Lemma sr_modify_sess g :
  (forall x, has_root_transaction (g x) = has_root_transaction x) ->
  preserves same_roots (modify_sess g).
Proof. intros Hg [x t lg f r u n l]. split; [reflexivity|apply Hg]. Qed.

Lemma sr_modify_tx (i : nat) g :
  (forall t, is_root (g t) = is_root t) -> preserves same_roots (modify_tx i g).
Proof.
  intros Hg [x ts lg f r u n l]. split; [|reflexivity]. simpl.
  destruct (ts !! i) as [t|] eqn:E; [|reflexivity].
  rewrite list_fmap_insert, Hg. apply list_insert_id.
  rewrite list_lookup_fmap, E. reflexivity.
Qed.

Lemma sr_get_tx i : preserves same_roots (get_tx i).
Proof. intros s. unfold get_tx. destruct (txs s !! i); split; reflexivity. Qed.

Lemma sr_uuid4 : preserves same_roots uuid4.
Proof. intros [x ts lg f r [|u us] n l]; split; reflexivity. Qed.

Lemma sr_cursor_execute k sql args : preserves same_roots (cursor_execute k sql args).
Proof.
  unfold cursor_execute. apply pres_bind; [exact same_roots_trans|apply sr_external|].
  intros _ [x ts lg f [|r0 rs] u n l]; split; reflexivity.
Qed.

Ltac pres_solve R_trans R_refl prim :=
  repeat first
    [ assumption
    | prim
    | apply pres_bind; [exact R_trans| |intros ?]
    | apply pres_try_finally; [exact R_trans| |]
    | apply pres_ret; exact R_refl
    | apply pres_raise; exact R_refl
    | apply pres_get; exact R_refl
    | progress unfold pool_acquire, pool_release, conn_cursor, cursor_close,
               conn_begin, conn_commit, conn_rollback, exec_on_fresh_cursor,
               read_savepoint, acquire_connection, release_connection
    | match goal with
      | |- preserves _ (match ?x with _ => _ end) => destruct x
      | |- preserves _ (if ?x then _ else _) => destruct x
      end ].

Ltac sr_prim :=
  first [ apply sr_external | apply sr_note | apply sr_fresh_id | apply sr_get_tx
        | apply sr_uuid4 | apply sr_cursor_execute
        | apply sr_modify_sess; intros [? ? ?]; reflexivity
        | apply sr_modify_tx; intros [? ? ?]; reflexivity ].

Ltac sr_solve := pres_solve same_roots_trans same_roots_refl sr_prim.

Lemma sr_acquire : preserves same_roots acquire_connection.
Proof. sr_solve. Qed.

Lemma sr_release : preserves same_roots release_connection.
Proof. sr_solve. Qed.

Lemma sr_exec_on_fresh_cursor c sql :
  preserves same_roots sql -> preserves same_roots (exec_on_fresh_cursor c sql).
Proof. intros Hs. unfold exec_on_fresh_cursor. sr_solve. Qed.

Lemma start_roots (i : nat) (s : St) (t : Transaction) :
  txs s !! i = Some t ->
  is_root <$> txs (snd (start i s)) =
    <[i := is_root t || negb (has_root_transaction (sess s))]> (is_root <$> txs s) /\
  has_root_transaction (sess (snd (start i s))) = true.
Proof.
  intros Hi. unfold start. rewrite bind_get. cbv beta.
  match goal with |- context [bind _ (fun _ => ?rest)] =>
    assert (Hr : preserves same_roots rest) by sr_solve end.
  destruct s as [[co h b] ts lg f rs us n lr]; cbn [txs sess has_root_transaction] in Hi |- *.
  destruct b; cbn [Bool.eqb].
  - rewrite (bind_step _ _ _ tt (mkSt (mkSession co h true) ts lg f rs us n lr) eq_refl).
    destruct (Hr (mkSt (mkSession co h true) ts lg f rs us n lr)) as [H1 H2].
    rewrite H1, H2. split; [|reflexivity].
    rewrite orb_false_r. symmetry. apply list_insert_id.
    cbn [txs]. rewrite list_lookup_fmap, Hi. reflexivity.
  - set (s1 := mkSt (mkSession co h true)
                 (<[i:=mkTransaction true (t_conn t) (savepoint_name t)]> ts) lg f rs us n lr).
    assert (Hp : (set_flag true >>
                  modify_tx i (fun t => mkTransaction true (t_conn t) (savepoint_name t)))
                   (mkSt (mkSession co h false) ts lg f rs us n lr) = (inr tt, s1)).
    { rewrite (bind_step (set_flag true) _ (mkSt (mkSession co h false) ts lg f rs us n lr)
                 tt (mkSt (mkSession co h true) ts lg f rs us n lr) eq_refl).
      exact (modify_tx_ok i _ t _ _ _ _ _ _ _ _ Hi). }
    rewrite (bind_step _ _ _ _ _ Hp).
    destruct (Hr s1) as [H1 H2]. rewrite H1, H2. split; [|reflexivity].
    rewrite orb_true_r. subst s1. cbn [txs]. rewrite list_fmap_insert. reflexivity.
Qed.

Lemma sr_read_savepoint i p : preserves same_roots (read_savepoint i p).
Proof. unfold read_savepoint. sr_solve. Qed.

(** [commit]/[rollback] of a transaction that is not root leave the roots and
    the flag alone; a root one may only clear the flag. *)
Lemma end_roots (i : nat) (m : option nat -> M unit) (p : string) (s : St) :
  (forall c, preserves same_roots (m c)) ->
  let e := (let* t := get_tx i in
            (if is_root t then m (t_conn t) >> set_flag false
             else exec_on_fresh_cursor (t_conn t) (read_savepoint i p)) >>
            release_connection) in
  same_roots s (snd (e s)) \/
  (exists t, txs s !! i = Some t /\ is_root t = true /\
     is_root <$> txs (snd (e s)) = is_root <$> txs s /\
     has_root_transaction (sess (snd (e s))) = false).
Proof.
  intros Hm e. subst e.
  destruct (txs s !! i) as [t|] eqn:Ht;
    [|left; unfold bind at 1, get_tx; rewrite Ht; apply same_roots_refl].
  rewrite (bind_step _ _ _ _ _ (eq_trans (f_equal (fun o => match o with
    | Some t => (inr t, s) | None => (inl AttributeError, s) end) Ht) eq_refl : get_tx i s = (inr t, s))).
  cbv beta.
  destruct (is_root t) eqn:Hroot.
  - pose proof (Hm (t_conn t) s) as Hs1.
    destruct (m (t_conn t) s) as [[e1|[]] s1] eqn:E1.
    + left. unfold bind. rewrite E1. exact Hs1.
    + right. exists t. split; [done|split; [done|]].
      destruct s1 as [[c1 h1 b1] ts1 lg1 f1 rs1 us1 n1 lr1].
      assert (Hres : ((m (t_conn t) >> set_flag false) >> release_connection) s =
                     release_connection (mkSt (mkSession c1 h1 false) ts1 lg1 f1 rs1 us1 n1 lr1)).
      { unfold bind at 1. rewrite (bind_step _ _ _ _ _ E1). reflexivity. }
      rewrite Hres.
      pose proof (sr_release (mkSt (mkSession c1 h1 false) ts1 lg1 f1 rs1 us1 n1 lr1)) as [H1 H2].
      rewrite H1, H2. destruct Hs1 as [Hs1 _]. exact (conj Hs1 eq_refl).
  - left. clear Ht. revert s. change (preserves same_roots
      (exec_on_fresh_cursor (t_conn t) (read_savepoint i p) >> release_connection)).
    apply pres_bind; [exact same_roots_trans| |intros _; apply sr_release].
    apply sr_exec_on_fresh_cursor, sr_read_savepoint.
Qed.


Lemma open_root_iff (w : World) (i : nat) :
  open_root w i <-> w_phase w !! i = Some Active /\ (is_root <$> txs (w_st w)) !! i = Some true.
Proof.
  unfold open_root. rewrite list_lookup_fmap. split.
  - intros [Hp (t & Ht & Hr)]. rewrite Ht. simpl. by rewrite Hr.
  - intros [Hp Hr]. split; [done|].
    destruct (txs (w_st w) !! i) as [t|]; simpl in Hr; [|discriminate].
    exists t. split; [done|]. by inversion Hr.
Qed.

Lemma transaction_roots (s : St) :
  is_root <$> txs (snd ((transaction >> ret tt) s)) = (is_root <$> txs s) ++ [false] /\
  has_root_transaction (sess (snd ((transaction >> ret tt) s))) = has_root_transaction (sess s).
Proof.
  destruct s as [x ts lg f r u n l]. cbn. rewrite fmap_app. split; reflexivity.
Qed.

Lemma end_cmd_roots (c : Cmd) (i : nat) (s : St) :
  c = CCommit i \/ c = CRollback i ->
  same_roots s (snd (run_cmd c s)) \/
  (exists t, txs s !! i = Some t /\ is_root t = true /\
     is_root <$> txs (snd (run_cmd c s)) = is_root <$> txs s /\
     has_root_transaction (sess (snd (run_cmd c s))) = false).
Proof.
  intros [-> | ->]; simpl.
  - apply (end_roots i conn_commit "RELEASE SAVEPOINT " s).
    intros [c|]; [apply sr_external|apply pres_raise, same_roots_refl].
  - apply (end_roots i conn_rollback "ROLLBACK TO SAVEPOINT " s).
    intros [c|]; [apply sr_external|apply pres_raise, same_roots_refl].
Qed.

Lemma wstep_end_inv (s : St) (ph : list Phase) (st : option nat) (c : Cmd) (i : nat) :
  c = CCommit i \/ c = CRollback i -> ph !! i = Some Active ->
  world_inv (mkWorld s ph st) ->
  world_inv (mkWorld (snd (run_cmd c s)) (<[i := Terminated]> ph) st).
Proof.
  intros Hc Ha (Hlen & Hun & Hop). cbn [w_st w_phase w_setter] in *.
  assert (Hkeep : is_root <$> txs (snd (run_cmd c s)) = is_root <$> txs s /\
                  (has_root_transaction (sess (snd (run_cmd c s))) =
                     has_root_transaction (sess s) \/
                   open_root (mkWorld s ph st) i /\
                   has_root_transaction (sess (snd (run_cmd c s))) = false)).
  { destruct (end_cmd_roots c i s Hc) as [[Hr Hf] | (t & Ht & Hrt & Hr & Hf)].
    - split; [done|by left].
    - split; [done|right]. split; [|done].
      split; [done|]. exists t. done. }
  destruct Hkeep as [Hr Hf].
  unfold world_inv; cbn [w_st w_phase w_setter].
  split; [|split].
  - rewrite length_insert, <- (length_fmap is_root (txs _)), Hr, length_fmap. exact Hlen.
  - intros j Hj. rewrite Hr.
    destruct (decide (i = j)) as [<-|Hne].
    + rewrite list_lookup_insert_eq in Hj by (eapply lookup_lt_Some; eauto). discriminate.
    + rewrite list_lookup_insert_ne in Hj by done. by apply Hun.
  - intros j Hj. apply open_root_iff in Hj as [Hp Hroot]. cbn [w_st w_phase] in Hp, Hroot.
    rewrite Hr in Hroot.
    destruct (decide (i = j)) as [<-|Hne].
    + rewrite list_lookup_insert_eq in Hp by (eapply lookup_lt_Some; eauto). discriminate.
    + rewrite list_lookup_insert_ne in Hp by done.
      destruct (Hop j) as [Hb Hs]; [apply open_root_iff; split; done|].
      destruct Hf as [Hf|[Hi _]].
      * by rewrite Hf.
      * destruct (Hop i Hi) as [_ Hs']. congruence.
Qed.

Lemma wstep_inv (w : World) (c : Cmd) :
  allowed (w_phase w) c = true -> world_inv w -> world_inv (wstep w c).
Proof.
  destruct w as [s ph st]. intros Ha (Hlen & Hun & Hop).
  cbn [w_st w_phase w_setter] in *.
  destruct c as [|i|i|i]; simpl in Ha.
  - (* CNew *)
    destruct (transaction_roots s) as [Hr Hf].
    unfold world_inv, wstep; cbn [run_cmd w_st w_phase w_setter].
    split; [|split].
    + rewrite length_app. rewrite <- (length_fmap is_root (txs _)), Hr, length_app, length_fmap.
      simpl. lia.
    + intros j Hj. rewrite Hr.
      destruct (decide (j < length ph)%nat) as [Hlt|Hge].
      * rewrite lookup_app_l in Hj by lia. rewrite lookup_app_l by (rewrite length_fmap; lia).
        by apply Hun.
      * rewrite lookup_app_r in Hj by lia. rewrite lookup_app_r by (rewrite length_fmap; lia).
        rewrite length_fmap, <- Hlen. destruct (j - length ph)%nat; [done|].
        simpl in Hj. by rewrite lookup_nil in Hj.
    + intros j Hj. apply open_root_iff in Hj as [Hp Hroot]. cbn [w_st w_phase] in Hp, Hroot.
      rewrite Hf. apply Hop. apply open_root_iff. cbn [w_st w_phase].
      destruct (decide (j < length ph)%nat) as [Hlt|Hge].
      * rewrite lookup_app_l in Hp by lia. rewrite Hr, lookup_app_l in Hroot
          by (rewrite length_fmap; lia). done.
      * rewrite lookup_app_r in Hp by lia. destruct (j - length ph)%nat; simpl in Hp; [done|].
        by rewrite lookup_nil in Hp.
  - (* CStart i *)
    apply bool_decide_eq_true in Ha.
    pose proof (Hun i Ha) as Hi. rewrite list_lookup_fmap in Hi.
    destruct (txs s !! i) as [t|] eqn:Ht; simpl in Hi; [|discriminate].
    injection Hi as Hroot_t.
    destruct (start_roots i s t Ht) as [Hr Hf]. rewrite Hroot_t in Hr. simpl in Hr.
    assert (Hlti : (i < length ph)%nat) by (eapply lookup_lt_Some; eauto).
    unfold world_inv, wstep; cbn [run_cmd w_st w_phase w_setter].
    split; [|split].
    + rewrite length_insert. rewrite <- (length_fmap is_root (txs _)), Hr, length_insert, length_fmap.
      exact Hlen.
    + intros j Hj. rewrite Hr.
      destruct (decide (i = j)) as [<-|Hne].
      * rewrite list_lookup_insert_eq in Hj by done. discriminate.
      * rewrite list_lookup_insert_ne in Hj by done. rewrite list_lookup_insert_ne by done.
        by apply Hun.
    + intros j Hj. apply open_root_iff in Hj as [Hp Hroot]. cbn [w_st w_phase] in Hp, Hroot.
      rewrite Hf. split; [done|]. rewrite Hr in Hroot.
      destruct (decide (i = j)) as [<-|Hne].
      * rewrite list_lookup_insert_eq in Hroot by (rewrite length_fmap; lia).
        injection Hroot as Hb. destruct (has_root_transaction (sess s)); [discriminate|done].
      * rewrite list_lookup_insert_ne in Hp by done. rewrite list_lookup_insert_ne in Hroot by done.
        destruct (Hop j) as [Hb Hs]; [apply open_root_iff; split; done|].
        by rewrite Hb.
  - apply bool_decide_eq_true in Ha.
    apply (wstep_end_inv s ph st (CCommit i) i); [by left|done|done].
  - apply bool_decide_eq_true in Ha.
    apply (wstep_end_inv s ph st (CRollback i) i); [by right|done|done].
Qed.

Lemma contract_app (w : World) (cs : list Cmd) (c : Cmd) :
  contract_ok w (cs ++ [c]) = contract_ok w cs && allowed (w_phase (run_world w cs)) c.
Proof.
  revert w. induction cs as [|c0 cs IH]; intros w; simpl.
  - by rewrite andb_true_r.
  - rewrite IH. by rewrite andb_assoc.
Qed.

Lemma run_world_inv (w : World) (cs : list Cmd) :
  world_inv w -> contract_ok w cs = true -> world_inv (run_world w cs).
Proof.
  revert w. induction cs as [|c cs IH]; intros w Hw Hc; simpl in *; [done|].
  apply andb_prop in Hc as [Ha Hc]. apply IH; [|done]. by apply wstep_inv.
Qed.

Lemma init_world_inv fl rs us : world_inv (init_world fl rs us).
Proof.
  split; [reflexivity|split].
  - intros i Hi. simpl in Hi. by rewrite lookup_nil in Hi.
  - intros i [Hi _]. simpl in Hi. by rewrite lookup_nil in Hi.
Qed.

(** C3 (corrected): along any run of a fresh session that follows the
    caller contract ([start] once on an unstarted transaction, [commit] or
    [rollback] once on a started one), whatever the driver raises: after each
    call at most one root transaction is open; [start] makes its transaction
    root exactly when the root flag is false; a transaction that is root
    afterwards was root before or the call is its [start]; a non-root
    [commit]/[rollback] leaves the flag; the flag goes from set to clear only
    by the [commit]/[rollback] of the transaction that set it. *)
Theorem C3_roots_under_contract (fl : list bool) (rs : list (list Row)) (us : list Z)
    (cs : list Cmd) (c : Cmd) :
  contract_ok (init_world fl rs us) (cs ++ [c]) = true ->
  let w := run_world (init_world fl rs us) cs in
  let w' := wstep w c in
  (forall i j, open_root w' i -> open_root w' j -> i = j) /\
  (forall i, c = CStart i ->
     (is_root <$> txs (w_st w')) !! i = Some (negb (has_root_transaction (sess (w_st w))))) /\
  (forall j, (is_root <$> txs (w_st w')) !! j = Some true ->
     (is_root <$> txs (w_st w)) !! j = Some true \/ c = CStart j) /\
  (forall i t, c = CCommit i \/ c = CRollback i -> txs (w_st w) !! i = Some t ->
     is_root t = false ->
     has_root_transaction (sess (w_st w')) = has_root_transaction (sess (w_st w))) /\
  (has_root_transaction (sess (w_st w)) = true ->
   has_root_transaction (sess (w_st w')) = false ->
   exists i, (c = CCommit i \/ c = CRollback i) /\ w_setter w = Some i).
Proof.
  intros Hc w w'.
  rewrite contract_app in Hc. apply andb_prop in Hc as [Hcs Ha].
  pose proof (run_world_inv _ _ (init_world_inv fl rs us) Hcs) as Hw. fold w in Hw, Ha.
  pose proof (wstep_inv w c Ha Hw) as Hw'. fold w' in Hw'.
  destruct w as [s ph st]. destruct Hw as (Hlen & Hun & Hop).
  cbn [w_st w_phase w_setter] in *.
  split; [|split; [|split; [|split]]].
  - intros i j Hi Hj. destruct Hw' as (_ & _ & Hop').
    destruct (Hop' i Hi) as [_ Hsi]. destruct (Hop' j Hj) as [_ Hsj]. congruence.
  - intros i ->. simpl in Ha. apply bool_decide_eq_true in Ha.
    pose proof (Hun i Ha) as Hi. rewrite list_lookup_fmap in Hi.
    destruct (txs s !! i) as [t|] eqn:Ht; simpl in Hi; [|discriminate].
    injection Hi as Hrt. destruct (start_roots i s t Ht) as [Hr _].
    subst w'. unfold wstep. cbn [run_cmd w_st]. rewrite Hr, Hrt.
    apply list_lookup_insert_eq. rewrite length_fmap. eapply lookup_lt_Some; eauto.
  - intros j Hj. subst w'. unfold wstep in Hj.
    destruct c as [|i|i|i]; cbn [run_cmd w_st] in Hj |- *.
    + destruct (transaction_roots s) as [Hr _]. rewrite Hr in Hj. left.
      destruct (decide (j < length (txs s))%nat) as [Hlt|Hge].
      * rewrite lookup_app_l in Hj by (rewrite length_fmap; lia). done.
      * rewrite lookup_app_r in Hj by (rewrite length_fmap; lia).
        destruct (j - length (is_root <$> txs s))%nat; simpl in Hj; [discriminate|].
        by rewrite lookup_nil in Hj.
    + simpl in Ha. apply bool_decide_eq_true in Ha.
      pose proof (Hun i Ha) as Hi. rewrite list_lookup_fmap in Hi.
      destruct (txs s !! i) as [t|] eqn:Ht; simpl in Hi; [|discriminate].
      destruct (start_roots i s t Ht) as [Hr _]. rewrite Hr in Hj.
      destruct (decide (i = j)) as [->|Hne]; [by right|left].
      by rewrite list_lookup_insert_ne in Hj.
    + left. destruct (end_cmd_roots (CCommit i) i s (or_introl eq_refl))
        as [[Hr _] | (t & _ & _ & Hr & _)]; cbn [run_cmd] in Hr; by rewrite Hr in Hj.
    + left. destruct (end_cmd_roots (CRollback i) i s (or_intror eq_refl))
        as [[Hr _] | (t & _ & _ & Hr & _)]; cbn [run_cmd] in Hr; by rewrite Hr in Hj.
  - intros i t Hci Ht Hrt. subst w'. unfold wstep.
    assert (Hx : has_root_transaction (sess (snd (run_cmd c s))) = has_root_transaction (sess s)).
    { destruct (end_cmd_roots c i s Hci) as [[_ Hf] | (t' & Ht' & Hrt' & _)]; [done|].
      congruence. }
    destruct Hci as [-> | ->]; exact Hx.
  - intros Hb Hb'. subst w'. unfold wstep in Hb'.
    destruct c as [|i|i|i]; cbn [run_cmd w_st] in Hb'.
    + destruct (transaction_roots s) as [_ Hf]. congruence.
    + simpl in Ha. apply bool_decide_eq_true in Ha.
      pose proof (Hun i Ha) as Hi. rewrite list_lookup_fmap in Hi.
      destruct (txs s !! i) as [t|] eqn:Ht; simpl in Hi; [|discriminate].
      destruct (start_roots i s t Ht) as [_ Hf]. congruence.
    + simpl in Ha. apply bool_decide_eq_true in Ha. exists i. split; [by left|].
      destruct (end_cmd_roots (CCommit i) i s (or_introl eq_refl))
        as [[_ Hf] | (t & Ht & Hrt & _)]; [cbn [run_cmd] in Hf; congruence|].
      apply (Hop i). split; [done|]. by exists t.
    + simpl in Ha. apply bool_decide_eq_true in Ha. exists i. split; [by right|].
      destruct (end_cmd_roots (CRollback i) i s (or_intror eq_refl))
        as [[_ Hf] | (t & Ht & Hrt & _)]; [cbn [run_cmd] in Hf; congruence|].
      apply (Hop i). split; [done|]. by exists t.
Qed.

Lemma C3_roots_under_contract_witness :
  contract_ok (init_world [] [] [7; 8]) ([CNew; CStart 0; CNew] ++ [CStart 1]) = true /\
  contract_ok (init_world [] [] [7; 8]) ([CNew; CStart 0; CNew; CStart 1] ++ [CRollback 1]) = true /\
  open_root (wstep (run_world (init_world [] [] [7; 8]) [CNew; CStart 0; CNew]) (CStart 1)) 0 /\
  (forall i j,
     open_root (wstep (run_world (init_world [] [] [7; 8]) [CNew; CStart 0; CNew]) (CStart 1)) i ->
     open_root (wstep (run_world (init_world [] [] [7; 8]) [CNew; CStart 0; CNew]) (CStart 1)) j ->
     i = j) /\
  (is_root <$> txs (w_st (wstep (run_world (init_world [] [] [7; 8]) [CNew; CStart 0; CNew]) (CStart 1))))
    !! 1%nat = Some false /\
  open_root (wstep (run_world (init_world [] [] [7; 8]) [CNew; CStart 0; CNew; CStart 1]) (CRollback 1)) 0 /\
  (forall i j,
     open_root (wstep (run_world (init_world [] [] [7; 8]) [CNew; CStart 0; CNew; CStart 1]) (CRollback 1)) i ->
     open_root (wstep (run_world (init_world [] [] [7; 8]) [CNew; CStart 0; CNew; CStart 1]) (CRollback 1)) j ->
     i = j) /\
  has_root_transaction (sess (w_st (wstep (run_world (init_world [] [] [7; 8])
                                      [CNew; CStart 0; CNew; CStart 1]) (CRollback 1)))) = true.
Proof.
  assert (Ha : contract_ok (init_world [] [] [7; 8]) ([CNew; CStart 0; CNew] ++ [CStart 1]) = true)
    by (vm_compute; reflexivity).
  assert (Hb : contract_ok (init_world [] [] [7; 8]) ([CNew; CStart 0; CNew; CStart 1] ++ [CRollback 1]) = true)
    by (vm_compute; reflexivity).
  pose proof (C3_roots_under_contract [] [] [7; 8] [CNew; CStart 0; CNew] (CStart 1) Ha) as A.
  pose proof (C3_roots_under_contract [] [] [7; 8] [CNew; CStart 0; CNew; CStart 1] (CRollback 1) Hb) as B.
  cbv zeta in A, B.
  destruct A as (A1 & A2 & _). destruct B as (B1 & _ & _ & B4 & _).
  split; [exact Ha|split; [exact Hb|split; [|split; [exact A1|split; [|split; [|split; [exact B1|]]]]]]].
  - split; [reflexivity|]. eexists. split; reflexivity.
  - rewrite (A2 1%nat eq_refl). reflexivity.
  - split; [reflexivity|]. eexists. split; reflexivity.
  - rewrite (B4 1%nat _ (or_intror eq_refl) eq_refl eq_refl). reflexivity.
Defined.


(** ** commit and rollback keep no life-cycle state *)

Lemma end_unstarted (i : nat) (m : option nat -> M unit) (p : string) (s : St) (t : Transaction) :
  m None = raise AttributeError ->
  txs s !! i = Some t -> t_conn t = None ->
  (let* t := get_tx i in
   (if is_root t then m (t_conn t) >> set_flag false
    else exec_on_fresh_cursor (t_conn t) (read_savepoint i p)) >>
   release_connection) s = (inl AttributeError, s).
Proof.
  intros Hm Ht Hc. unfold bind at 1, get_tx at 1. rewrite Ht. cbv beta. rewrite Hc.
  destruct (is_root t); unfold bind; [rewrite Hm|]; reflexivity.
Qed.

Lemma end_started (i : nat) (m : option nat -> M unit) (ev : nat -> Event) (p : string)
    (s : St) (t : Transaction) (c : nat) :
  (forall c' x ts lg r u n l,
     m (Some c') (mkSt x ts lg [] r u n l) = (inr tt, mkSt x ts (lg ++ [ev c']) [] r u n l)) ->
  fails s = [] -> txs s !! i = Some t -> t_conn t = Some c ->
  (is_root t = true \/ savepoint_name t <> None) ->
  let e := (let* t := get_tx i in
            (if is_root t then m (t_conn t) >> set_flag false
             else exec_on_fresh_cursor (t_conn t) (read_savepoint i p)) >>
            release_connection) in
  fst (e s) = inr tt /\ fails (snd (e s)) = [] /\ txs (snd (e s)) = txs s /\
  connection_holders (sess (snd (e s))) = connection_holders (sess s) - 1 /\
  exists k pr,
    (pr = [] \/ pr = [EvPoolRelease (conn (sess s))]) /\
    log (snd (e s)) = log s ++
      (if is_root t then [ev c]
       else match savepoint_name t with
            | Some nm => [EvCursor c k; EvExec k (p ++ nm) []; EvClose k]
            | None => []
            end) ++ [EvLeaseRelease] ++ pr.
Proof.
  intros Hm Hf Ht Hc Hs e. subst e.
  destruct s as [[co h b] ts lg f rs us n lr]; cbn [fails txs sess log] in *; subst f.
  rewrite (bind_step _ _ _ _ _ (get_tx_ok _ _ _ _ _ _ _ _ _ _ Ht)). cbv beta. rewrite Hc.
  destruct (is_root t).
  - assert (Hres : ((m (Some c) >> set_flag false) >> release_connection)
                     (mkSt (mkSession co h b) ts lg [] rs us n lr) =
                   release_connection (mkSt (mkSession co h false) ts (lg ++ [ev c]) [] rs us n lr)).
    { unfold bind at 1. rewrite (bind_step _ _ _ _ _ (Hm c _ _ _ _ _ _ _)). reflexivity. }
    rewrite Hres. cbn.
    destruct (Z.eqb_spec (h - 1) 0); cbn.
    + do 4 (split; [reflexivity|]). exists 0%nat, [EvPoolRelease co].
      split; [by right|]. by rewrite <- !app_assoc.
    + do 4 (split; [reflexivity|]). exists 0%nat, [].
      split; [by left|]. by rewrite <- !app_assoc.
  - destruct Hs as [Hs|Hs]; [discriminate|].
    destruct (savepoint_name t) as [nm|] eqn:Hn; [|done].
    assert (Hx : exists rs' lr',
      exec_on_fresh_cursor (Some c) (read_savepoint i p) (mkSt (mkSession co h b) ts lg [] rs us n lr) =
      (inr tt, mkSt (mkSession co h b) ts (lg ++ [EvCursor c n; EvExec n (p ++ nm) []; EvClose n])
                    [] rs' us (S n) lr')).
    { unfold exec_on_fresh_cursor.
      rewrite (bind_step _ _ _ _ _ (conn_cursor_ok _ _ _ _ _ _ _ _)). cbv beta.
      unfold try_finally.
      rewrite (bind_step _ _ _ _ _ (read_savepoint_ok _ _ _ _ _ _ _ _ _ _ _ _ Ht Hn)).
      destruct rs as [|r0 rs]; eexists _, _; cbn; rewrite <- !app_assoc; reflexivity. }
    destruct Hx as (rs' & lr' & Hx). rewrite (bind_step _ _ _ _ _ Hx). cbn.
    destruct (Z.eqb_spec (h - 1) 0); cbn;
      (do 4 (split; [reflexivity|]));
      first [ exists n, [EvPoolRelease co]; split; [by right|]; by rewrite <- !app_assoc
            | exists n, []; split; [by left|]; by rewrite <- !app_assoc ].
Qed.

Lemma same_txs_refl s : same_txs s s.
Proof. reflexivity. Qed.

Lemma same_txs_trans s1 s2 s3 : same_txs s1 s2 -> same_txs s2 s3 -> same_txs s1 s3.
Proof. unfold same_txs. congruence. Qed.

Lemma stx_external e : preserves same_txs (external e).
Proof. intros [x t lg [|[] f] r u n l]; reflexivity. Qed.

Lemma stx_note e : preserves same_txs (note e).
Proof. intros [x t lg f r u n l]; reflexivity. Qed.

Lemma stx_fresh_id : preserves same_txs fresh_id.
Proof. intros [x t lg f r u n l]; reflexivity. Qed.

Lemma stx_modify_sess g : preserves same_txs (modify_sess g).
Proof. intros [x t lg f r u n l]; reflexivity. Qed.

Lemma stx_get_tx i : preserves same_txs (get_tx i).
Proof. intros s. unfold get_tx. destruct (txs s !! i); reflexivity. Qed.

Lemma stx_cursor_execute k sql args : preserves same_txs (cursor_execute k sql args).
Proof.
  unfold cursor_execute. apply pres_bind; [exact same_txs_trans|apply stx_external|].
  intros _ [x ts lg f [|r0 rs] u n l]; reflexivity.
Qed.

Ltac stx_prim :=
  first [ apply stx_external | apply stx_note | apply stx_fresh_id | apply stx_get_tx
        | apply stx_cursor_execute | apply stx_modify_sess ].

Lemma stx_commit i : preserves same_txs (commit i).
Proof. unfold commit, set_flag. pres_solve same_txs_trans same_txs_refl stx_prim. Qed.

Lemma stx_rollback i : preserves same_txs (rollback i).
Proof. unfold rollback, set_flag. pres_solve same_txs_trans same_txs_refl stx_prim. Qed.

(** C6 (corrected): [commit] and [rollback] keep no life-cycle state and make
    no usage check: they never change the transaction objects; on a started
    transaction with a driver that raises nothing they return normally, and
    called a second time they return normally again, redo the COMMIT /
    ROLLBACK (or savepoint statement) and release the lease again, the count
    dropping by 2; on a never-started transaction both raise AttributeError
    (no [conn] attribute) and leave the state unchanged. *)
Theorem C6_no_lifecycle_check :
  (forall (i : nat) (s : St),
     txs (snd (commit i s)) = txs s /\ txs (snd (rollback i s)) = txs s) /\
  (forall (i : nat) (s : St) (t : Transaction) (c : nat),
     fails s = [] -> txs s !! i = Some t -> t_conn t = Some c ->
     (is_root t = true \/ savepoint_name t <> None) ->
     (fst (commit i s) = inr tt /\ fails (snd (commit i s)) = [] /\
      connection_holders (sess (snd (commit i s))) = connection_holders (sess s) - 1 /\
      (exists k pr, (pr = [] \/ pr = [EvPoolRelease (conn (sess s))]) /\
        log (snd (commit i s)) = log s ++
          (if is_root t then [EvCommit c]
           else match savepoint_name t with
                | Some nm => [EvCursor c k; EvExec k ("RELEASE SAVEPOINT " ++ nm) []; EvClose k]
                | None => []
                end) ++ [EvLeaseRelease] ++ pr) /\
      fst (commit i (snd (commit i s))) = inr tt /\
      connection_holders (sess (snd (commit i (snd (commit i s))))) =
        connection_holders (sess s) - 2) /\
     (fst (rollback i s) = inr tt /\ fails (snd (rollback i s)) = [] /\
      connection_holders (sess (snd (rollback i s))) = connection_holders (sess s) - 1 /\
      (exists k pr, (pr = [] \/ pr = [EvPoolRelease (conn (sess s))]) /\
        log (snd (rollback i s)) = log s ++
          (if is_root t then [EvRollback c]
           else match savepoint_name t with
                | Some nm => [EvCursor c k; EvExec k ("ROLLBACK TO SAVEPOINT " ++ nm) []; EvClose k]
                | None => []
                end) ++ [EvLeaseRelease] ++ pr) /\
      fst (rollback i (snd (rollback i s))) = inr tt /\
      connection_holders (sess (snd (rollback i (snd (rollback i s))))) =
        connection_holders (sess s) - 2)) /\
  (forall (i : nat) (s : St) (t : Transaction),
     txs s !! i = Some t -> t_conn t = None ->
     commit i s = (inl AttributeError, s) /\ rollback i s = (inl AttributeError, s)).
Proof.
  split; [|split].
  - intros i s. split; [apply stx_commit|apply stx_rollback].
  - intros i s t c Hf Ht Hc Hs.
    assert (Hcm : forall c' x ts lg r u n l,
      conn_commit (Some c') (mkSt x ts lg [] r u n l) =
      (inr tt, mkSt x ts (lg ++ [EvCommit c']) [] r u n l)) by reflexivity.
    assert (Hrb : forall c' x ts lg r u n l,
      conn_rollback (Some c') (mkSt x ts lg [] r u n l) =
      (inr tt, mkSt x ts (lg ++ [EvRollback c']) [] r u n l)) by reflexivity.
    split.
    + destruct (end_started i conn_commit EvCommit "RELEASE SAVEPOINT " s t c Hcm Hf Ht Hc Hs)
        as (Hr & Hf1 & Ht1 & Hh1 & Hlog).
      change (commit i) with (let* t := get_tx i in
              (if is_root t then conn_commit (t_conn t) >> set_flag false
               else exec_on_fresh_cursor (t_conn t) (read_savepoint i "RELEASE SAVEPOINT ")) >>
              release_connection).
      rewrite <- Ht1 in Ht.
      destruct (end_started i conn_commit EvCommit "RELEASE SAVEPOINT " _ t c Hcm Hf1 Ht Hc Hs)
        as (Hr2 & _ & _ & Hh2 & _).
      do 4 (split; [done|]). split; [done|]. rewrite Hh2, Hh1. lia.
    + destruct (end_started i conn_rollback EvRollback "ROLLBACK TO SAVEPOINT " s t c Hrb Hf Ht Hc Hs)
        as (Hr & Hf1 & Ht1 & Hh1 & Hlog).
      change (rollback i) with (let* t := get_tx i in
              (if is_root t then conn_rollback (t_conn t) >> set_flag false
               else exec_on_fresh_cursor (t_conn t) (read_savepoint i "ROLLBACK TO SAVEPOINT ")) >>
              release_connection).
      rewrite <- Ht1 in Ht.
      destruct (end_started i conn_rollback EvRollback "ROLLBACK TO SAVEPOINT " _ t c Hrb Hf1 Ht Hc Hs)
        as (Hr2 & _ & _ & Hh2 & _).
      do 4 (split; [done|]). split; [done|]. rewrite Hh2, Hh1. lia.
  - intros i s t Ht Hc. split.
    + exact (end_unstarted i conn_commit "RELEASE SAVEPOINT " s t eq_refl Ht Hc).
    + exact (end_unstarted i conn_rollback "ROLLBACK TO SAVEPOINT " s t eq_refl Ht Hc).
Qed.

Lemma C6_no_lifecycle_check_witness :
  fails s_root = [] /\
  txs s_root !! 0%nat = Some (mkTransaction true (Some 0%nat) None) /\
  fst (rollback 0 (snd (rollback 0 s_root))) = inr tt /\
  commit 0 (snd (transaction (new_session [] [] []))) =
    (inl AttributeError, snd (transaction (new_session [] [] []))).
Proof.
  assert (Hf : fails s_root = []) by (vm_compute; reflexivity).
  assert (Ht : txs s_root !! 0%nat = Some (mkTransaction true (Some 0%nat) None))
    by (vm_compute; reflexivity).
  split; [exact Hf|split; [exact Ht|split]].
  - destruct ((proj1 (proj2 C6_no_lifecycle_check)) 0%nat s_root
                (mkTransaction true (Some 0%nat) None) 0%nat Hf Ht eq_refl (or_introl eq_refl))
      as [_ (_ & _ & _ & _ & H & _)].
    exact H.
  - exact (proj1 ((proj2 (proj2 C6_no_lifecycle_check)) 0%nat
             (snd (transaction (new_session [] [] []))) new_transaction eq_refl eq_refl)).
Defined.

(** * Further properties *)

Lemma column_map_snoc (cols : list Column) (c : Column) :
  _column_map (cols ++ [c]) = <[col_name c := (length cols, c)]> (_column_map cols).
Proof.
  unfold _column_map. rewrite imap_app, foldl_app. simpl. by rewrite Nat.add_0_r.
Qed.

(** X1: The column map of a [Record] sends a name to the position and column of its LAST
    occurrence among the result columns: a later column with the same name overrides an
    earlier one. *)
Theorem column_map_last_wins (cols : list Column) (k : string) (idx : nat) (col : Column) :
  _column_map cols !! k = Some (idx, col) <->
  cols !! idx = Some col /\ col_name col = k /\
  (forall j c, (idx < j)%nat -> cols !! j = Some c -> col_name c <> k).
Proof.
  revert idx col. induction cols as [|c cols IH] using rev_ind; intros idx col.
  - unfold _column_map. simpl. rewrite lookup_empty, lookup_nil.
    split; [discriminate|intros [? _]; discriminate].
  - rewrite column_map_snoc.
    destruct (decide (col_name c = k)) as [<-|Hne].
    + rewrite lookup_insert_eq. split.
      * intros Hs; inversion Hs; subst. split; [|split; [done|]].
        { rewrite lookup_app_r by lia. rewrite Nat.sub_diag. done. }
        intros j c' Hj Hl. apply lookup_lt_Some in Hl. rewrite length_app in Hl. simpl in Hl. lia.
      * intros (Hl & Hk & Hlast).
        destruct (decide (idx = length cols)) as [->|Hi].
        { rewrite lookup_app_r in Hl by lia; rewrite Nat.sub_diag in Hl. simpl in Hl. by inversion Hl. }
        exfalso. assert (Hlt : (idx < length cols)%nat).
        { apply lookup_lt_Some in Hl. rewrite length_app in Hl. simpl in Hl. lia. }
        apply (Hlast (length cols) c); [lia| |reflexivity].
        rewrite lookup_app_r by lia; rewrite Nat.sub_diag. done.
    + rewrite lookup_insert_ne by done. rewrite IH. split.
      * intros (Hl & Hk & Hlast). split; [by apply lookup_app_l_Some|split; [done|]].
        intros j c' Hj Hl'.
        destruct (decide (j < length cols)%nat) as [Hjl|Hjl].
        { rewrite lookup_app_l in Hl' by done. eauto. }
        apply lookup_lt_Some in Hl' as Hlen. rewrite length_app in Hlen. simpl in Hlen.
        assert (j = length cols) as -> by lia.
        rewrite lookup_app_r in Hl' by lia; rewrite Nat.sub_diag in Hl'. simpl in Hl'. inversion Hl'; subst. done.
      * intros (Hl & Hk & Hlast).
        destruct (decide (idx < length cols)%nat) as [Hil|Hil].
        { rewrite lookup_app_l in Hl by done. split; [done|split; [done|]].
          intros j c' Hj Hl'. apply (Hlast j c'); [done|]. by apply lookup_app_l_Some. }
        exfalso. apply lookup_lt_Some in Hl as Hlen. rewrite length_app in Hlen. simpl in Hlen.
        assert (idx = length cols) as -> by lia.
        rewrite lookup_app_r in Hl by lia; rewrite Nat.sub_diag in Hl. simpl in Hl. inversion Hl; subst. done.
Qed.


(** [release_connection], case by case. *)
Lemma release_connection_cases (s : St) :
  (connection_holders (sess s) <> 1 ->
     release_connection s =
     (inr tt, set_log (set_sess s (mkSession (conn (sess s)) (connection_holders (sess s) - 1)
                                    (has_root_transaction (sess s))))
                      (log s ++ [EvLeaseRelease]))) /\
  (connection_holders (sess s) = 1 ->
     release_connection s =
     ((if hd false (fails s) then inl DriverError else inr tt),
      set_fails (set_log (set_sess s (mkSession (if hd false (fails s) then conn (sess s) else None)
                                        0 (has_root_transaction (sess s))))
                         (log s ++ [EvLeaseRelease; EvPoolRelease (conn (sess s))]))
                (tl (fails s)))).
Proof.
  destruct s as [[c h b] ts lg f rs us n lr]; cbn [sess conn connection_holders]; split; intros Hh.
  - unfold release_connection, bind, note, modify_sess, get. cbn.
    destruct (Z.eqb_spec (h - 1) 0); [lia|]. reflexivity.
  - subst h. unfold release_connection, bind, note, modify_sess, get, pool_release, external, ret.
    destruct f as [|[] f]; cbn; change (1 - 1 =? 0) with true; cbn; try rewrite <- app_assoc; reflexivity.
Qed.


(** X3: [release_connection] always counts one holder less and keeps the root flag and the
    transactions; unless the count was 1 it neither calls the pool nor drops the connection;
    when it was 1 it calls [pool.release] on the connection once, and either drops it or, if
    that call raises, raises and keeps it. *)
Theorem release_connection_spec (s : St) :
  connection_holders (sess (snd (release_connection s))) = connection_holders (sess s) - 1 /\
  has_root_transaction (sess (snd (release_connection s))) = has_root_transaction (sess s) /\
  txs (snd (release_connection s)) = txs s /\
  (connection_holders (sess s) <> 1 ->
     fst (release_connection s) = inr tt /\
     conn (sess (snd (release_connection s))) = conn (sess s) /\
     log (snd (release_connection s)) = log s ++ [EvLeaseRelease]) /\
  (connection_holders (sess s) = 1 ->
     log (snd (release_connection s)) = log s ++ [EvLeaseRelease; EvPoolRelease (conn (sess s))] /\
     ((fst (release_connection s) = inr tt /\ conn (sess (snd (release_connection s))) = None) \/
      (fst (release_connection s) = inl DriverError /\
       conn (sess (snd (release_connection s))) = conn (sess s)))).
Proof.
  destruct (release_connection_cases s) as (Hn & H1).
  destruct s as [x ts lg f r u n l]. cbn [sess fails] in *.
  destruct (Z.eq_dec (connection_holders x) 1) as [E|E].
  - rewrite (H1 E). cbn. rewrite E.
    split; [reflexivity|split; [reflexivity|split; [reflexivity|split]]].
    + intros C. exfalso. apply C. reflexivity.
    + intros _. split; [reflexivity|].
      destruct (hd false f); [right|left]; split; reflexivity.
  - rewrite (Hn E). cbn.
    split; [reflexivity|split; [reflexivity|split; [reflexivity|split]]].
    + intros _. repeat split; reflexivity.
    + intros C. contradiction.
Qed.



(** X4: Under the lease invariant and with no failing call, acquiring then releasing
    restores the session; a pool connection is acquired and released back only if none was
    held. *)
Theorem acquire_release_roundtrip (s : St) :
  lease_inv (sess s) -> fails s = [] ->
  (acquire_connection >> release_connection) s =
  (inr tt,
   match conn (sess s) with
   | None => set_next_id (set_log s (log s ++ [EvLeaseAcquire; EvPoolAcquire (next_id s);
                                               EvLeaseRelease; EvPoolRelease (Some (next_id s))]))
                         (S (next_id s))
   | Some _ => set_log s (log s ++ [EvLeaseAcquire; EvLeaseRelease])
   end).
Proof.
  destruct s as [[[c|] h b] ts lg f rs us n lr]; unfold lease_inv; cbn [sess conn connection_holders fails];
    intros [H0 Hiff] Hf; subst f.
  - assert (0 < h) by (apply Hiff; discriminate).
    unfold bind, acquire_connection, release_connection, note, modify_sess, get, ret.
    cbn. replace (h + 1 - 1) with h by lia.
    destruct (Z.eqb_spec h 0); [lia|]. cbn. by rewrite <- app_assoc.
  - assert (h = 0) as -> by (destruct (Z.eq_dec h 0); [done|]; exfalso; assert (Hn : None <> None) by (apply Hiff; lia); done).
    unfold bind, acquire_connection, release_connection, note, modify_sess, get, ret,
      pool_acquire, pool_release, external, fresh_id.
    cbn. change (0 + 1 - 1 =? 0) with true. cbn. by rewrite <- !app_assoc.
Qed.

(** X5: When the last [pool.release] raises, the count is 0 but the released connection
    stays stored, and the next [acquire_connection] reuses it without calling the pool. *)
Theorem release_failure_keeps_connection (s : St) (c : nat) :
  conn (sess s) = Some c -> connection_holders (sess s) = 1 -> hd false (fails s) = true ->
  fst (release_connection s) = inl DriverError /\
  connection_holders (sess (snd (release_connection s))) = 0 /\
  conn (sess (snd (release_connection s))) = Some c /\
  last (log (snd (release_connection s))) = Some (EvPoolRelease (Some c)) /\
  acquire_connection (snd (release_connection s)) =
  (inr (Some c),
   set_log (set_sess (snd (release_connection s))
              (mkSession (Some c) 1 (has_root_transaction (sess s))))
           (log (snd (release_connection s)) ++ [EvLeaseAcquire])).
Proof.
  destruct s as [[co h b] ts lg [|[|] f] rs us n lr]; cbn [sess conn connection_holders fails hd];
    intros Hc Hh Hf; try discriminate; subst co h.
  unfold release_connection, bind, note, modify_sess, get, ret, pool_release, external.
  cbn. change (1 - 1 =? 0) with true. cbn.
  split; [done|split; [done|split; [done|split]]].
  - replace (lg ++ [EvLeaseRelease; EvPoolRelease (Some c)])
      with ((lg ++ [EvLeaseRelease]) ++ [EvPoolRelease (Some c)])
      by (rewrite <- app_assoc; reflexivity).
    apply last_snoc.
  - reflexivity.
Qed.








Lemma same_lease_refl s : same_lease s s.
Proof. split; reflexivity. Qed.

Lemma same_lease_trans s1 s2 s3 : same_lease s1 s2 -> same_lease s2 s3 -> same_lease s1 s3.
Proof. intros [H1 H2] [H3 H4]. split; congruence. Qed.

Lemma knf_refl s : keeps_no_fail s s.
Proof. intros H; exact H. Qed.

Lemma knf_trans s1 s2 s3 : keeps_no_fail s1 s2 -> keeps_no_fail s2 s3 -> keeps_no_fail s1 s3.
Proof. unfold keeps_no_fail. auto. Qed.

Lemma sl_external e : preserves same_lease (external e).
Proof. intros [x t lg [|[] f] r u n l]; split; reflexivity. Qed.
Lemma sl_note e : preserves same_lease (note e).
Proof. intros [x t lg f r u n l]; split; reflexivity. Qed.
Lemma sl_fresh_id : preserves same_lease fresh_id.
Proof. intros [x t lg f r u n l]; split; reflexivity. Qed.
Lemma sl_modify_flag g :
  (forall x, conn (g x) = conn x /\ connection_holders (g x) = connection_holders x) ->
  preserves same_lease (modify_sess g).
Proof. intros Hg [x t lg f r u n l]. apply Hg. Qed.
Lemma sl_modify_tx i g : preserves same_lease (modify_tx i g).
Proof. intros [x t lg f r u n l]; split; reflexivity. Qed.
Lemma sl_get_tx i : preserves same_lease (get_tx i).
Proof. intros s. unfold get_tx. destruct (txs s !! i); split; reflexivity. Qed.
Lemma sl_uuid4 : preserves same_lease uuid4.
Proof. intros [x ts lg f r [|u us] n l]; split; reflexivity. Qed.
Lemma sl_cursor_execute k sql args : preserves same_lease (cursor_execute k sql args).
Proof.
  unfold cursor_execute. apply pres_bind; [exact same_lease_trans|apply sl_external|].
  intros _ [x ts lg f [|r0 rs] u n l]; split; reflexivity.
Qed.

Ltac sl_prim :=
  first [ apply sl_external | apply sl_note | apply sl_fresh_id | apply sl_get_tx
        | apply sl_uuid4 | apply sl_cursor_execute | apply sl_modify_tx
        | apply sl_modify_flag; intros [? ? ?]; split; reflexivity ].

Lemma knf_external e : preserves keeps_no_fail (external e).
Proof. intros [x t lg [|[] f] r u n l]; unfold keeps_no_fail; cbn; congruence. Qed.
Lemma knf_note e : preserves keeps_no_fail (note e).
Proof. intros [x t lg f r u n l] H; exact H. Qed.
Lemma knf_fresh_id : preserves keeps_no_fail fresh_id.
Proof. intros [x t lg f r u n l] H; exact H. Qed.
Lemma knf_modify_sess g : preserves keeps_no_fail (modify_sess g).
Proof. intros [x t lg f r u n l] H; exact H. Qed.
Lemma knf_modify_tx i g : preserves keeps_no_fail (modify_tx i g).
Proof. intros [x t lg f r u n l] H; exact H. Qed.
Lemma knf_get_tx i : preserves keeps_no_fail (get_tx i).
Proof. intros s. unfold get_tx. destruct (txs s !! i); intros H; exact H. Qed.
Lemma knf_uuid4 : preserves keeps_no_fail uuid4.
Proof. intros [x ts lg f r [|u us] n l] H; exact H. Qed.
Lemma knf_cursor_execute k sql args : preserves keeps_no_fail (cursor_execute k sql args).
Proof.
  unfold cursor_execute. apply pres_bind; [exact knf_trans|apply knf_external|].
  intros _ [x ts lg f [|r0 rs] u n l] H; exact H.
Qed.

Ltac knf_prim :=
  first [ apply knf_external | apply knf_note | apply knf_fresh_id | apply knf_get_tx
        | apply knf_uuid4 | apply knf_cursor_execute | apply knf_modify_tx
        | apply knf_modify_sess ].

(** The part of [start] after [acquire_connection]. *)
Lemma start_rest_lease i (c : option nat) :
  preserves same_lease
    (modify_tx i (fun t => mkTransaction (is_root t) c (savepoint_name t)) >>
     let* t := get_tx i in
     if is_root t then conn_begin (t_conn t)
     else
       let* u := uuid4 in
       modify_tx i (fun t => mkTransaction (is_root t) (t_conn t) (Some (savepoint_of_uuid u))) >>
       exec_on_fresh_cursor (t_conn t) (read_savepoint i "SAVEPOINT ")).
Proof. pres_solve same_lease_trans same_lease_refl sl_prim. Qed.

Lemma start_rest_knf i (c : option nat) :
  preserves keeps_no_fail
    (modify_tx i (fun t => mkTransaction (is_root t) c (savepoint_name t)) >>
     let* t := get_tx i in
     if is_root t then conn_begin (t_conn t)
     else
       let* u := uuid4 in
       modify_tx i (fun t => mkTransaction (is_root t) (t_conn t) (Some (savepoint_of_uuid u))) >>
       exec_on_fresh_cursor (t_conn t) (read_savepoint i "SAVEPOINT ")).
Proof. pres_solve knf_trans knf_refl knf_prim. Qed.

Lemma start_prefix (i : nat) x ts lg f rs us n lr :
  exists ts',
    (if Bool.eqb (has_root_transaction x) false then
       set_flag true >> modify_tx i (fun t => mkTransaction true (t_conn t) (savepoint_name t))
     else ret tt) (mkSt x ts lg f rs us n lr) =
    (inr tt, mkSt (mkSession (conn x) (connection_holders x) true) ts' lg f rs us n lr).
Proof.
  destruct x as [c h [|]]; cbn [has_root_transaction Bool.eqb].
  - exists ts. reflexivity.
  - eexists. unfold bind. cbn. reflexivity.
Qed.

Lemma lease_inv_cases' (co : option nat) (h : Z) (b : bool) :
  lease_inv (mkSession co h b) ->
  (exists c, co = Some c /\ 0 < h) \/ (co = None /\ h = 0).
Proof.
  unfold lease_inv. cbn. intros [H0 Hiff]. destruct co as [c|].
  - left. exists c. split; [done|]. apply Hiff. discriminate.
  - right. split; [done|]. destruct (Z.eq_dec h 0); [done|].
    exfalso. assert (Hn : None <> @None nat) by (apply Hiff; lia). done.
Qed.

Theorem start_lease (i : nat) (s : St) :
  connection_holders (sess (snd (start i s))) = connection_holders (sess s) + 1 /\
  (fails s = [] ->
   fails (snd (start i s)) = [] /\
   conn (sess (snd (start i s))) =
     Some (match conn (sess s) with Some c => c | None => next_id s end)).
Proof.
  destruct s as [x ts lg f rs us n lr]. unfold start. rewrite bind_get. cbv beta.
  cbn [sess].
  destruct (start_prefix i x ts lg f rs us n lr) as [ts' Hp].
  rewrite (bind_step _ _ _ _ _ Hp). cbn [sess fails conn next_id].
  set (s1 := mkSt (mkSession (conn x) (connection_holders x) true) ts' lg f rs us n lr).
  split.
  - unfold bind at 1. pose proof (acquire_holders s1) as Ha.
    destruct (acquire_connection s1) as [[e|c] s2] eqn:E; cbn [snd] in Ha |- *.
    + rewrite Ha. reflexivity.
    + destruct (start_rest_lease i c s2) as [_ Hh]. rewrite Hh, Ha. reflexivity.
  - intros ->. subst s1.
    destruct (acquire_ok (mkSession (conn x) (connection_holders x) true) ts' lg rs us n lr)
      as (c & pool & n' & Hpool & Ea).
    rewrite (bind_step _ _ _ _ _ Ea). cbv beta. cbn [connection_holders has_root_transaction conn].
    destruct (start_rest_lease i (Some c)
                (mkSt (mkSession (Some c) (connection_holders x + 1) true) ts'
                      (lg ++ [EvLeaseAcquire] ++ pool) [] rs us n' lr)) as [Hc _].
    pose proof (start_rest_knf i (Some c)
                (mkSt (mkSession (Some c) (connection_holders x + 1) true) ts'
                      (lg ++ [EvLeaseAcquire] ++ pool) [] rs us n' lr) eq_refl) as Hf.
    split; [exact Hf|]. rewrite Hc. cbn [sess conn].
    destruct x as [[c0|] h b]; cbn in Ea; [inversion Ea; reflexivity|].
    inversion Ea; reflexivity.
Qed.

Lemma end_steps (i : nat) (m : option nat -> M unit) (ev : nat -> Event) (p : string)
    (s : St) (t : Transaction) (c : nat) :
  (forall c' x ts lg r u n l,
     m (Some c') (mkSt x ts lg [] r u n l) = (inr tt, mkSt x ts (lg ++ [ev c']) [] r u n l)) ->
  fails s = [] -> txs s !! i = Some t -> t_conn t = Some c ->
  (is_root t = true \/ savepoint_name t <> None) ->
  exists s2,
    conn (sess s2) = conn (sess s) /\
    connection_holders (sess s2) = connection_holders (sess s) /\
    has_root_transaction (sess s2) =
      (if is_root t then false else has_root_transaction (sess s)) /\
    fails s2 = [] /\
    (let* t := get_tx i in
     (if is_root t then m (t_conn t) >> set_flag false
      else exec_on_fresh_cursor (t_conn t) (read_savepoint i p)) >>
     release_connection) s = release_connection s2.
Proof.
  intros Hm Hf Ht Hc Hs.
  destruct s as [[co h b] ts lg f rs us n lr]; cbn [fails txs sess log] in *; subst f.
  rewrite (bind_step _ _ _ _ _ (get_tx_ok _ _ _ _ _ _ _ _ _ _ Ht)). cbv beta. rewrite Hc.
  destruct (is_root t).
  - exists (mkSt (mkSession co h false) ts (lg ++ [ev c]) [] rs us n lr).
    do 4 (split; [reflexivity|]).
    unfold bind at 1. rewrite (bind_step _ _ _ _ _ (Hm c _ _ _ _ _ _ _)). reflexivity.
  - destruct Hs as [Hs|Hs]; [discriminate|].
    destruct (savepoint_name t) as [nm|] eqn:Hn; [|done].
    assert (Hx : exists rs' lr',
      exec_on_fresh_cursor (Some c) (read_savepoint i p) (mkSt (mkSession co h b) ts lg [] rs us n lr) =
      (inr tt, mkSt (mkSession co h b) ts (lg ++ [EvCursor c n; EvExec n (p ++ nm) []; EvClose n])
                    [] rs' us (S n) lr')).
    { unfold exec_on_fresh_cursor.
      rewrite (bind_step _ _ _ _ _ (conn_cursor_ok _ _ _ _ _ _ _ _)). cbv beta.
      unfold try_finally.
      rewrite (bind_step _ _ _ _ _ (read_savepoint_ok _ _ _ _ _ _ _ _ _ _ _ _ Ht Hn)).
      destruct rs as [|r0 rs]; eexists _, _; cbn; rewrite <- !app_assoc; reflexivity. }
    destruct Hx as (rs' & lr' & Hx). rewrite (bind_step _ _ _ _ _ Hx).
    exists (mkSt (mkSession co h b) ts (lg ++ [EvCursor c n; EvExec n (p ++ nm) []; EvClose n])
              [] rs' us (S n) lr').
    do 4 (split; [reflexivity|]). reflexivity.
Qed.

Lemma release_nofail x ts lg rs us n lr :
  exists lg',
    release_connection (mkSt x ts lg [] rs us n lr) =
    (inr tt, mkSt (mkSession (if connection_holders x - 1 =? 0 then None else conn x)
                             (connection_holders x - 1) (has_root_transaction x))
                  ts lg' [] rs us n lr).
Proof.
  destruct x as [c h b]. cbn [connection_holders conn has_root_transaction].
  unfold release_connection, bind, note, modify_sess, get, ret, pool_release, external.
  cbn. destruct (h - 1 =? 0); cbn; eexists; reflexivity.
Qed.

Lemma start_end_generic (i : nat) (m : option nat -> M unit) (ev : nat -> Event) (p : string)
    (s : St) (t : Transaction) :
  (forall c' x ts lg r u n l,
     m (Some c') (mkSt x ts lg [] r u n l) = (inr tt, mkSt x ts (lg ++ [ev c']) [] r u n l)) ->
  fails s = [] -> lease_inv (sess s) -> txs s !! i = Some t -> is_root t = false ->
  let e := (let* t := get_tx i in
            (if is_root t then m (t_conn t) >> set_flag false
             else exec_on_fresh_cursor (t_conn t) (read_savepoint i p)) >>
            release_connection) in
  fst ((start i >> e) s) = inr tt /\ sess (snd ((start i >> e) s)) = sess s.
Proof.
  intros Hm Hf Hinv Ht Hr e.
  destruct (start_ok i s t Hf Ht) as (Hok & Hflag & c & pool & Hc & Hpool & Hbr).
  destruct (start_lease i s) as [Hh Hl]. destruct (Hl Hf) as [Hf1 Hc1]. clear Hl.
  destruct (start i s) as [r1 s1] eqn:Es. cbn [fst snd] in *. subst r1.
  rewrite Hc in Hc1. injection Hc1 as Hc1.
  assert (He : exists t1, txs s1 !! i = Some t1 /\ t_conn t1 = Some c /\
                 is_root t1 = negb (has_root_transaction (sess s)) /\
                 (is_root t1 = true \/ savepoint_name t1 <> None)).
  { rewrite Hr in Hbr. cbn [orb] in Hbr.
    destruct (has_root_transaction (sess s)); cbn [negb] in Hbr |- *.
    - destruct Hbr as (k & name & _ & Ht1 & _). eexists; split; [exact Ht1|].
      split; [reflexivity|split; [reflexivity|right; discriminate]].
    - destruct Hbr as [Ht1 _]. eexists; split; [exact Ht1|].
      split; [reflexivity|split; [reflexivity|left; reflexivity]]. }
  destruct He as (t1 & Ht1 & Htc & Hr1 & Hs1).
  destruct (end_steps i m ev p s1 t1 c Hm Hf1 Ht1 Htc Hs1)
    as (s2 & Hc2 & Hh2 & Hb2 & Hf2 & Hend).
  assert (Hres : (start i >> e) s = release_connection s2).
  { subst e. unfold bind at 1. rewrite Es. exact Hend. }
  rewrite Hres. clear Hres Hend.
  destruct s2 as [x2 ts2 lg2 f2 rs2 us2 n2 lr2]. cbn [fails] in Hf2. subst f2.
  destruct (release_nofail x2 ts2 lg2 rs2 us2 n2 lr2) as [lg' Hrel]. rewrite Hrel.
  cbn [fst snd sess] in *. split; [reflexivity|].
  rewrite Hh2, Hh, Hb2, Hr1, Hflag, Hc2, Hc.
  destruct (sess s) as [co h b] eqn:Ex. cbn [conn connection_holders has_root_transaction] in *.
  replace (h + 1 - 1) with h by lia. f_equal.
  - destruct (lease_inv_cases' co h b Hinv) as [[c0 [-> Hpos]]|[-> ->]].
    + destruct (Z.eqb_spec h 0); [lia|]. congruence.
    + reflexivity.
  - destruct b; reflexivity.
Qed.

Lemma commit_ev c' x ts lg r u n l :
  conn_commit (Some c') (mkSt x ts lg [] r u n l) = (inr tt, mkSt x ts (lg ++ [EvCommit c']) [] r u n l).
Proof. reflexivity. Qed.

Lemma rollback_ev c' x ts lg r u n l :
  conn_rollback (Some c') (mkSt x ts lg [] r u n l) = (inr tt, mkSt x ts (lg ++ [EvRollback c']) [] r u n l).
Proof. reflexivity. Qed.

(** X11: Starting a transaction that is not yet a root and then committing or rolling it
    back, under the lease invariant and with no failing call, returns normally and restores
    the session (connection, holders and root flag). *)
Theorem start_end_restores_session (i : nat) (s : St) (t : Transaction) :
  fails s = [] -> lease_inv (sess s) -> txs s !! i = Some t -> is_root t = false ->
  (fst ((start i >> commit i) s) = inr tt /\ sess (snd ((start i >> commit i) s)) = sess s) /\
  (fst ((start i >> rollback i) s) = inr tt /\ sess (snd ((start i >> rollback i) s)) = sess s).
Proof.
  intros Hf Hinv Ht Hr. split.
  - exact (start_end_generic i conn_commit EvCommit "RELEASE SAVEPOINT " s t commit_ev Hf Hinv Ht Hr).
  - exact (start_end_generic i conn_rollback EvRollback "ROLLBACK TO SAVEPOINT " s t rollback_ev Hf Hinv Ht Hr).
Qed.




Lemma length_nibbles (n : nat) (u : Z) : length (nibbles n u) = n.
Proof.
  revert u. induction n as [|n IH]; intros u; simpl; [done|].
  rewrite length_app, IH. simpl. lia.
Qed.

Lemma length_uuid_str (u : Z) : length (uuid_str u) = 36%nat.
Proof.
  unfold uuid_str.
  assert (Hl : length (map hex_digit (nibbles 32 u)) = 32%nat)
    by (rewrite length_map, length_nibbles; reflexivity).
  revert Hl. generalize (map hex_digit (nibbles 32 u)). intros h Hl.
  rewrite !length_app. simpl. rewrite !length_take, !length_drop, Hl. reflexivity.
Qed.

Lemma length_list_ascii_of_string (s : string) :
  length (list_ascii_of_string s) = String.length s.
Proof. induction s as [|ch s IH]; simpl; [done|]. by rewrite IH. Qed.

(** X13: A savepoint name is always 56 characters long, within the 64-character identifier
    limit of MySQL. *)
Theorem savepoint_name_length (u : Z) : String.length (savepoint_of_uuid u) = 56%nat.
Proof.
  rewrite <- length_list_ascii_of_string, savepoint_chars, length_app.
  unfold replace_hyphen. rewrite length_map, length_uuid_str. reflexivity.
Qed.


(** X9: [start] counts one more holder of the connection whether it returns or raises. *)
Theorem start_never_releases (i : nat) (s : St) :
  connection_holders (sess (snd (start i s))) = connection_holders (sess s) + 1.
Proof. exact (proj1 (start_lease i s)). Qed.

Lemma end_lease_generic (i : nat) (b : Transaction -> M unit) (s : St) :
  (forall t, preserves same_lease (b t)) ->
  let e := (let* t := get_tx i in b t >> release_connection) in
  (exists s2, same_lease s s2 /\ e s = release_connection s2) \/
  ((exists ex, fst (e s) = inl ex) /\ same_lease s (snd (e s))).
Proof.
  intros Hb e. subst e. unfold bind, get_tx.
  destruct (txs s !! i) as [t|] eqn:Ht.
  - specialize (Hb t s).
    destruct (b t s) as [[ex|[]] s1] eqn:E.
    + right. split; [by exists ex|exact Hb].
    + left. exists s1. split; [exact Hb|reflexivity].
  - right. split; [by exists AttributeError|apply same_lease_refl].
Qed.

Lemma end_lease_holders (i : nat) (b : Transaction -> M unit) (s : St) :
  (forall t, preserves same_lease (b t)) ->
  let e := (let* t := get_tx i in b t >> release_connection) in
  (connection_holders (sess (snd (e s))) = connection_holders (sess s) - 1 \/
   connection_holders (sess (snd (e s))) = connection_holders (sess s)) /\
  (fst (e s) = inr tt ->
   connection_holders (sess (snd (e s))) = connection_holders (sess s) - 1).
Proof.
  intros Hm e. subst e.
  destruct (end_lease_generic i b s Hm) as [(s2 & [_ Hh] & Hres)|((ex & Hex) & [_ Hh])];
    cbv zeta in *.
  - rewrite Hres, release_holders, Hh. split; [left|intros _]; reflexivity.
  - split; [right; exact Hh|]. rewrite Hex. discriminate.
Qed.

Lemma end_branch_lease (i : nat) (m : option nat -> M unit) (p : string) :
  (forall c, preserves same_lease (m c)) ->
  forall t : Transaction,
    preserves same_lease
      (if is_root t then m (t_conn t) >> set_flag false
       else exec_on_fresh_cursor (t_conn t) (read_savepoint i p)).
Proof.
  intros Hm t. destruct (is_root t).
  - apply pres_bind; [exact same_lease_trans|apply Hm|intros _].
    apply sl_modify_flag. intros [? ? ?]. split; reflexivity.
  - unfold exec_on_fresh_cursor, read_savepoint. pres_solve same_lease_trans same_lease_refl sl_prim.
Qed.

(** X10: [commit] and [rollback] lower the holder count by at most one; when they return
    normally they lowered it by exactly one. *)
Theorem end_releases_at_most_once (i : nat) (s : St) :
  ((connection_holders (sess (snd (commit i s))) = connection_holders (sess s) - 1 \/
    connection_holders (sess (snd (commit i s))) = connection_holders (sess s)) /\
   (fst (commit i s) = inr tt ->
    connection_holders (sess (snd (commit i s))) = connection_holders (sess s) - 1)) /\
  ((connection_holders (sess (snd (rollback i s))) = connection_holders (sess s) - 1 \/
    connection_holders (sess (snd (rollback i s))) = connection_holders (sess s)) /\
   (fst (rollback i s) = inr tt ->
    connection_holders (sess (snd (rollback i s))) = connection_holders (sess s) - 1)).
Proof.
  split.
  - apply (end_lease_holders i _ s), (end_branch_lease i conn_commit).
    intros [c|]; unfold conn_commit; pres_solve same_lease_trans same_lease_refl sl_prim.
  - apply (end_lease_holders i _ s), (end_branch_lease i conn_rollback).
    intros [c|]; unfold conn_rollback; pres_solve same_lease_trans same_lease_refl sl_prim.
Qed.



(** X14: A session created with [rollback_isolation] creates transaction 0; [async with]
    starts it as root on a new pool connection, and for a body that leaves the session and
    transaction 0 as it found them with no failing call, rolls it back on exit, returns the
    body result and hands the connection back to the pool. *)
Theorem isolated_session_roundtrip {A} (rs : list (list Row)) (us : list Z) (body : M A) :
  let s0 := snd (session_init true (new_session [] rs us)) in
  fst (session_init true (new_session [] rs us)) = inr (Some 0%nat) /\
  fst (aenter (Some 0%nat) s0) = inr tt /\
  sess (snd (aenter (Some 0%nat) s0)) = mkSession (Some 0%nat) 1 true /\
  log (snd (aenter (Some 0%nat) s0)) = [EvLeaseAcquire; EvPoolAcquire 0; EvBegin 0] /\
  (forall r s2,
     body (snd (aenter (Some 0%nat) s0)) = (r, s2) ->
     sess s2 = mkSession (Some 0%nat) 1 true ->
     txs s2 !! 0%nat = Some (mkTransaction true (Some 0%nat) None) ->
     fails s2 = [] ->
     fst (async_with (Some 0%nat) body s0) = r /\
     sess (snd (async_with (Some 0%nat) body s0)) = mkSession None 0 false /\
     log (snd (async_with (Some 0%nat) body s0)) =
       log s2 ++ [EvRollback 0; EvLeaseRelease; EvPoolRelease (Some 0%nat)]).
Proof.
  cbv zeta. do 4 (split; [reflexivity|]).
  intros r s2 Hb Hs Ht Hf.
  assert (Hres : async_with (Some 0%nat) body (snd (session_init true (new_session [] rs us))) =
                 try_finally body (aexit (Some 0%nat)) (snd (aenter (Some 0%nat)
                   (snd (session_init true (new_session [] rs us)))))) by reflexivity.
  rewrite Hres. clear Hres. unfold try_finally. rewrite Hb.
  destruct s2 as [x2 ts2 lg2 f2 rs2 us2 n2 lr2]; cbn [sess txs fails] in Hs, Ht, Hf; subst x2 f2.
  cbn [aexit]. unfold rollback.
  rewrite (bind_step _ _ _ _ _ (get_tx_ok _ _ _ _ _ _ _ _ _ _ Ht)). cbv beta. cbn [is_root t_conn].
  cbn. change (1 - 1 =? 0) with true. change (1 - 1) with 0. cbn. rewrite <- !app_assoc. repeat split; reflexivity.
Qed.

(** X15: [connect] calls [create_pool] with port 3306 when the URL port is missing or 0
    and the login name when the user name is missing or empty, and stores the new pool without
    closing an existing one; if [create_pool] raises the pool is unchanged. *)
Theorem connect_pool_args (b : Backend) :
  let db := database_url b in
  (hd false (b_fails b) = false ->
   exists port' user',
     port' = match port db with None | Some Z0 => 3306 | Some z => z end /\
     user' = match username db with None | Some EmptyString => getuser b | Some u => u end /\
     connect b =
     (inr tt, mkBackend db (Some (b_next_id b))
                (b_log b ++ [EvCreatePool (hostname db) port' user' (password db) (database db)
                               (b_next_id b)])
                (tl (b_fails b)) (S (b_next_id b)) (getuser b))) /\
  (hd false (b_fails b) = true ->
   fst (connect b) = inl BackendDriverError /\ pool (snd (connect b)) = pool b).
Proof.
  destruct b as [[h pt us pw d] p lg f n g]. cbn [database_url b_fails b_next_id b_log getuser
    hostname port username password database pool]. split.
  - intros Hf. destruct f as [|[] f]; cbn in Hf; try discriminate;
      (eexists _, _; split; [reflexivity|split; [reflexivity|]]);
      destruct pt as [[|z|z]|]; destruct us as [[|ch u]|]; reflexivity.
  - intros Hf. destruct f as [|[] f]; cbn in Hf; try discriminate. split; reflexivity.
Qed.

(** X16: [disconnect] and [session] raise AssertionError when no pool is set; [disconnect]
    unsets the pool after close and wait_closed, but keeps it when wait_closed raises. *)
Theorem backend_running_checks (b : Backend) (ri : bool) :
  (pool b = None ->
   disconnect b = (inl AssertionError, b) /\ session ri b = (inl AssertionError, b)) /\
  (forall p, pool b = Some p ->
   session ri b = (inr (p, ri), b) /\
   (forall rest, b_fails b = false :: false :: rest ->
      disconnect b =
        (inr tt, mkBackend (database_url b) None (b_log b ++ [EvPoolClose p; EvPoolWaitClosed p])
                   rest (b_next_id b) (getuser b)) /\
      session ri (snd (disconnect b)) = (inl AssertionError, snd (disconnect b))) /\
   (forall rest, b_fails b = false :: true :: rest ->
      disconnect b =
        (inl BackendDriverError,
         mkBackend (database_url b) (Some p) (b_log b ++ [EvPoolClose p; EvPoolWaitClosed p])
           rest (b_next_id b) (getuser b)) /\
      session ri (snd (disconnect b)) = (inr (p, ri), snd (disconnect b)))).
Proof.
  destruct b as [u po lg f n g]; cbn [pool b_fails b_log database_url b_next_id getuser].
  split; [intros ->; split; reflexivity|].
  intros p ->. split; [reflexivity|split].
  - intros rest ->. cbn. rewrite <- app_assoc. split; reflexivity.
  - intros rest ->. cbn. rewrite <- app_assoc. split; reflexivity.
Qed.


(** Witness: [release_connection] at holders 2 and at holders 1. *)
Lemma release_connection_spec_witness :
  connection_holders (sess (mkSt (mkSession (Some 0%nat) 2 false) [] [] [] [] [] 1 [])) <> 1 /\
  conn (sess (snd (release_connection (mkSt (mkSession (Some 0%nat) 2 false) [] [] [] [] [] 1 []))))
    = Some 0%nat /\
  connection_holders (sess (mkSt (mkSession (Some 0%nat) 1 false) [] [] [] [] [] 1 [])) = 1 /\
  log (snd (release_connection (mkSt (mkSession (Some 0%nat) 1 false) [] [] [] [] [] 1 [])))
    = [EvLeaseRelease; EvPoolRelease (Some 0%nat)].
Proof.
  split; [discriminate|split; [|split; [reflexivity|]]].
  - destruct (release_connection_spec (mkSt (mkSession (Some 0%nat) 2 false) [] [] [] [] [] 1 []))
      as (_ & _ & _ & Hn & _).
    apply Hn. discriminate.
  - destruct (release_connection_spec (mkSt (mkSession (Some 0%nat) 1 false) [] [] [] [] [] 1 []))
      as (_ & _ & _ & _ & H1).
    exact (proj1 (H1 eq_refl)).
Defined.


Lemma lease_inv_new_session fl rs us : lease_inv (sess (new_session fl rs us)).
Proof. unfold lease_inv. simpl. split; [lia|split; [congruence|lia]]. Qed.

(** Witness: acquire then release on a fresh session. *)
Lemma acquire_release_roundtrip_witness :
  lease_inv (sess (new_session [] [] [])) /\ fails (new_session [] [] []) = [] /\
  log (snd ((acquire_connection >> release_connection) (new_session [] [] []))) =
    [EvLeaseAcquire; EvPoolAcquire 0; EvLeaseRelease; EvPoolRelease (Some 0%nat)].
Proof.
  split; [apply lease_inv_new_session|split; [reflexivity|]].
  rewrite (acquire_release_roundtrip (new_session [] [] []) (lease_inv_new_session [] [] []) eq_refl).
  reflexivity.
Defined.

(** Witness: a raising [pool.release] at the last release. *)
Lemma release_failure_keeps_connection_witness :
  conn (sess (mkSt (mkSession (Some 0%nat) 1 false) [] [] [true] [] [] 1 [])) = Some 0%nat /\
  connection_holders (sess (mkSt (mkSession (Some 0%nat) 1 false) [] [] [true] [] [] 1 [])) = 1 /\
  hd false (fails (mkSt (mkSession (Some 0%nat) 1 false) [] [] [true] [] [] 1 [])) = true /\
  conn (sess (snd (release_connection (mkSt (mkSession (Some 0%nat) 1 false) [] [] [true] [] [] 1 []))))
    = Some 0%nat.
Proof.
  split; [reflexivity|split; [reflexivity|split; [reflexivity|]]].
  exact (proj1 (proj2 (proj2 (release_failure_keeps_connection
           (mkSt (mkSession (Some 0%nat) 1 false) [] [] [true] [] [] 1 []) 0%nat
           eq_refl eq_refl eq_refl)))).
Defined.




Lemma lease_inv_s_root : lease_inv (sess s_root).
Proof. unfold lease_inv. vm_compute. split; [discriminate|split; [intros _; reflexivity|discriminate]]. Qed.

(** Witness: a nested transaction under the root transaction of [s_root]. *)
Lemma start_end_restores_session_witness :
  fails (snd (transaction s_root)) = [] /\ lease_inv (sess (snd (transaction s_root))) /\
  txs (snd (transaction s_root)) !! 1%nat = Some new_transaction /\
  is_root new_transaction = false /\
  sess (snd ((start 1 >> rollback 1) (snd (transaction s_root)))) = sess (snd (transaction s_root)).
Proof.
  split; [reflexivity|split; [exact lease_inv_s_root|split; [reflexivity|split; [reflexivity|]]]].
  exact (proj2 (proj2 (start_end_restores_session 1 (snd (transaction s_root)) new_transaction
                          eq_refl lease_inv_s_root eq_refl eq_refl))).
Defined.


(** Witness: [async with] an isolated session around one [execute]. *)
Lemma isolated_session_roundtrip_witness :
  sess (snd (async_with (Some 0%nat) (execute (mkQuery "INSERT INTO t VALUES (1)" [] []))
               (snd (session_init true (new_session [] [] []))))) = mkSession None 0 false /\
  log (snd (async_with (Some 0%nat) (execute (mkQuery "INSERT INTO t VALUES (1)" [] []))
               (snd (session_init true (new_session [] [] []))))) =
    [EvLeaseAcquire; EvPoolAcquire 0; EvBegin 0;
     EvCompile "INSERT INTO t VALUES (1)" []; EvLeaseAcquire; EvCursor 0 1;
     EvExec 1 "INSERT INTO t VALUES (1)" []; EvClose 1; EvLeaseRelease;
     EvRollback 0; EvLeaseRelease; EvPoolRelease (Some 0%nat)].
Proof.
  pose proof (isolated_session_roundtrip [] [] (execute (mkQuery "INSERT INTO t VALUES (1)" [] [])))
    as H.
  cbv zeta in H. destruct H as (_ & _ & _ & _ & H).
  destruct (H _ _ (surjective_pairing _)) as (_ & Hs & Hl);
    [vm_compute; reflexivity|vm_compute; reflexivity|vm_compute; reflexivity|].
  split; [exact Hs|]. rewrite Hl. vm_compute. reflexivity.
Defined.

(** Witness: [connect] with no port and no user name, then with a raising
    [create_pool]. *)
Lemma connect_pool_args_witness :
  b_log (snd (connect (new_backend (mkDatabaseURL (Some "db") None None None None) "alice" [])))
    = [EvCreatePool (Some "db") 3306 "alice" None None 0] /\
  pool (snd (connect (new_backend (mkDatabaseURL (Some "db") None None None None) "alice" [true])))
    = None.
Proof.
  split.
  - pose proof (proj1 (connect_pool_args (new_backend (mkDatabaseURL (Some "db") None None None None) "alice" []))
                  eq_refl) as (port' & user' & Hp & Hu & Hc).
    rewrite Hc, Hp, Hu. reflexivity.
  - exact (proj2 (proj2 (connect_pool_args (new_backend (mkDatabaseURL (Some "db") None None None None) "alice" [true]))
                  eq_refl)).
Defined.

(** Witness: [disconnect] and [session] on a connected backend. *)
Lemma backend_running_checks_witness :
  fst (session false (snd (disconnect (mkBackend (mkDatabaseURL None None None None None) (Some 0%nat)
                                           [] [false; false] 1 "u")))) = inl AssertionError /\
  fst (disconnect (new_backend (mkDatabaseURL None None None None None) "u" [])) = inl AssertionError.
Proof.
  split.
  - rewrite (proj2 (proj1 (proj2 (proj2 (backend_running_checks
              (mkBackend (mkDatabaseURL None None None None None) (Some 0%nat) [] [false; false] 1 "u") false)
              0%nat eq_refl)) [] eq_refl)).
    reflexivity.
  - rewrite (proj1 (proj1 (backend_running_checks (new_backend (mkDatabaseURL None None None None None) "u" []) false)
              eq_refl)).
    reflexivity.
Defined.

(** Witness: the commit of the root transaction of [s_root]. *)
Lemma end_releases_at_most_once_witness :
  fst (commit 0 s_root) = inr tt /\
  connection_holders (sess (snd (commit 0 s_root))) = 0.
Proof.
  assert (H : fst (commit 0 s_root) = inr tt) by (vm_compute; reflexivity).
  split; [exact H|].
  exact (proj2 (proj1 (end_releases_at_most_once 0 s_root)) H).
Defined.
